(** * apogee.modelspec.ferre: the FERRE control layer

    A shallow embedding of [apogee/modelspec/ferre.py] and the properties
    of its three functions and of its argument decorator.

    - [Text]: the string operations the module relies on ([%i], [%s],
      [%.Nf], [os.path.join], splitting into lines and fields).
    - [Py]: the part of the Python/numpy run time the module touches:
      values, exceptions, a state-and-exception monad over a file store,
      argument binding, [len], indexing.
    - then the four definitions of the source file, in source order, and
      the theorems about them. *)

From Stdlib Require Import ZArith String Ascii DecimalString.
From Stdlib Require Import Floats.SpecFloat.
From Stdlib Require DecimalZ DecimalPos.
From stdpp Require Import gmap strings list.

Local Open Scope Z_scope.

(** ** Text *)

Module Text.

(** The line terminator ['\n'] and the field separator [' ']. *)
Definition nl : ascii := Ascii.ascii_of_nat 10.
Definition sp : ascii := " "%char.
Definition NL : string := String nl EmptyString.

(** [c] does not occur in [s]. *)
Fixpoint lacks (c : ascii) (s : string) : bool :=
  match s with
  | EmptyString => true
  | String a s' => negb (Ascii.eqb a c) && lacks c s'
  end.

(** [s.split(c)]: the maximal [c]-free pieces of [s], in order. *)
Fixpoint split_on (c : ascii) (s : string) : list string :=
  match s with
  | EmptyString => [EmptyString]
  | String a s' =>
      if Ascii.eqb a c then EmptyString :: split_on c s'
      else match split_on c s' with
           | [] => [String a EmptyString]
           | w :: ws => String a w :: ws
           end
  end.

(** The lines of a text file: the pieces between line terminators; a
    terminator at the very end does not open one more line. *)
Fixpoint drop_last_empty (ps : list string) : list string :=
  match ps with
  | [] => []
  | [EmptyString] => []
  | p :: ps' => p :: drop_last_empty ps'
  end.

Definition lines (s : string) : list string := drop_last_empty (split_on nl s).

(** What a sequence of [write(l + '\n')] calls leaves in a file. *)
Definition unlines (ls : list string) : string :=
  foldr (λ l acc, l +:+ NL +:+ acc) EmptyString ls.

Definition starts_with (c : ascii) (s : string) : bool :=
  match s with
  | String a _ => Ascii.eqb a c
  | EmptyString => false
  end.

Fixpoint ends_with (c : ascii) (s : string) : bool :=
  match s with
  | EmptyString => false
  | String a EmptyString => Ascii.eqb a c
  | String _ s' => ends_with c s'
  end.

(** [posixpath.join(a, b)]. *)
Definition path_join (a b : string) : string :=
  if starts_with "/" b then b
  else if (String.eqb a EmptyString || ends_with "/" a)%bool then a +:+ b
  else a +:+ "/" +:+ b.

(** ['%i' % z] for a Python integer. *)
Definition fmt_i (z : Z) : string := NilZero.string_of_int (Z.to_int z).

(** The decimal digits of a natural number, at least one. *)
Definition digits (n : N) : string := NilZero.string_of_uint (N.to_uint n).

(** The character of a decimal digit [d < 10]. *)
Definition digit_char (d : N) : ascii := Ascii.ascii_of_N (48 + d).

(** The low [p] decimal digits of [n], most significant first: [n]
    written on exactly [p] digits when [n < 10^p]. *)
Fixpoint low_digits (p : nat) (n : N) : string :=
  match p with
  | O => EmptyString
  | S p' => low_digits p' (n / 10) +:+ String (digit_char (n mod 10)) EmptyString
  end.

(** Nearest integer to [m / 2^k], a tie going to the even neighbour. *)
Definition round_half_even (m : N) (k : N) : N :=
  let q := N.shiftr m k in
  let r := (m - N.shiftl q k)%N in
  let twice := (2 * r)%N in
  let one := N.shiftl 1 k in
  if (twice <? one)%N then q
  else if (one <? twice)%N then (q + 1)%N
  else if N.even q then q else (q + 1)%N.

(** [|x| * 10^p] rounded to an integer, for the finite float of
    magnitude [m * 2^e]. *)
Definition scaled (p : nat) (m : positive) (e : Z) : N :=
  let t := (N.pos m * 10 ^ N.of_nat p)%N in
  match e with
  | Z0 => t
  | Zpos k => N.shiftl t (N.pos k)
  | Zneg k => round_half_even t (N.pos k)
  end.

Definition sign_text (s : bool) : string := if s then "-" else EmptyString.

(** A magnitude given in units of [10^-p], as fixed-point text. *)
Definition fixed (p : nat) (n : N) : string :=
  let unit := (10 ^ N.of_nat p)%N in
  match p with
  | O => digits n
  | _ => digits (n / unit) +:+ "." +:+ low_digits p (n mod unit)
  end.

(** ['%.pf' % x] for a Python float (Python 3: the exact binary value,
    correctly rounded to [p] decimals, ties to even; the sign of a
    negative zero or of a negative value rounding to zero is kept). *)
Definition fmt_f (p : nat) (x : spec_float) : string :=
  match x with
  | S754_nan => "nan"
  | S754_infinity s => sign_text s +:+ "inf"
  | S754_zero s => sign_text s +:+ fixed p 0
  | S754_finite s m e => sign_text s +:+ fixed p (scaled p m e)
  end.

(** Every character of [s] satisfies [P]. *)
Fixpoint all_chars (P : ascii → bool) (s : string) : bool :=
  match s with
  | EmptyString => true
  | String a s' => P a && all_chars P s'
  end.

Definition is_digit (c : ascii) : bool :=
  let n := Ascii.N_of_ascii c in ((48 <=? n) && (n <=? 57))%N.

Definition nonempty (s : string) : bool :=
  match s with
  | EmptyString => false
  | _ => true
  end.

(** The alphabet of [%i]: digits and the minus sign. *)
Definition int_char (c : ascii) : bool := is_digit c || Ascii.eqb c "-".

(** The alphabet of [%f]: digits, sign, point and the letters of
    [nan] and [inf]. *)
Definition float_char (c : ascii) : bool :=
  is_digit c || Ascii.eqb c "-" || Ascii.eqb c "." || Ascii.eqb c "n"
  || Ascii.eqb c "a" || Ascii.eqb c "i" || Ascii.eqb c "f".

(** Digits, and when [p > 0] a point followed by exactly [p] digits. *)
Definition unsigned_decimal (p : nat) (s : string) : bool :=
  match split_on "." s with
  | [i] => (p =? 0)%nat && nonempty i && all_chars is_digit i
  | [i; f] => (0 <? p)%nat && nonempty i && all_chars is_digit i
              && (String.length f =? p)%nat && all_chars is_digit f
  | _ => false
  end.

(** A decimal numeral with [p] fraction digits and an optional sign. *)
Definition decimal (p : nat) (s : string) : bool :=
  match s with
  | String c s' => if Ascii.eqb c "-" then unsigned_decimal p s' else unsigned_decimal p s
  | EmptyString => false
  end.

(** A float that is a number: a zero or a finite non-zero value. *)
Definition is_finite (x : spec_float) : bool :=
  match x with
  | S754_zero _ | S754_finite _ _ _ => true
  | S754_infinity _ | S754_nan => false
  end.

(** The field [f] is [x] written by [%.pf]: for a finite [x] a decimal
    numeral with exactly [p] fraction digits, for the other floats one of
    the words [nan], [inf] and [-inf]. *)
Definition written (p : nat) (x : spec_float) (f : string) : Prop :=
  f = fmt_f p x
  ∧ if is_finite x then decimal p f = true
    else f = "nan"%string ∨ f = "inf"%string ∨ f = "-inf"%string.

End Text.

(** ** The Python and numpy run time *)

Module Py.

(** Exceptions the module can raise or let through. [Exception] is the
    plain built-in class with its message. *)
Inductive exn :=
| IndexError
| TypeError
| OSError (reason : string)
| CalledProcessError (status : Z)
| Exception (msg : string).

Inductive res (A : Type) :=
| Ok (a : A)
| Raise (e : exn).
Arguments Ok {A} a.
Arguments Raise {A} e.

(** The file store: the text of each file, and the paths the operating
    system refuses to open for writing (missing directory, permissions). *)
Record world := World {
  files : gmap string string;
  unwritable : gset string
}.

(** Computations that read and change the store and may raise. *)
Definition M (A : Type) : Type := world → world * res A.

#[global] Instance M_ret : MRet M := λ A a w, (w, Ok a).
#[global] Instance M_bind : MBind M := λ A B f m w,
  match m w with
  | (w', Ok a) => f a w'
  | (w', Raise e) => (w', Raise e)
  end.

Definition raise {A} (e : exn) : M A := λ w, (w, Raise e).
Definition lift {A} (r : res A) : M A := λ w, (w, r).

(** [try: m  except <class>: h]: [handler e] is [None] when [e] is not
    an instance of the class. *)
Definition try_except {A} (m : M A) (handler : exn → option (M A)) : M A :=
  λ w, match m w with
       | (w', Raise e) =>
           match handler e with
           | Some h => h w'
           | None => (w', Raise e)
           end
       | r => r
       end.

(** [for x in l: body(x)] *)
Fixpoint for_each {A} (l : list A) (body : A → M unit) : M unit :=
  match l with
  | [] => mret tt
  | x :: l' => body x ;; for_each l' body
  end.

(** [range(lo, hi)] over Python integers. *)
Definition range (lo hi : Z) : list Z :=
  (λ k, lo + Z.of_nat k) <$> seq 0 (Z.to_nat (hi - lo)).

(** *** Files *)

(** A file object open for writing, known by its path. *)
Definition handle := string.

(** [open(path, 'w')]: the file is created or emptied. *)
Definition open_w (path : string) : M handle := λ w,
  if decide (path ∈ unwritable w) then (w, Raise (OSError path))
  else (World (<[path := EmptyString]> (files w)) (unwritable w), Ok path).

(** [f.write(s)]: [s] goes after what the file holds. *)
Definition write (f : handle) (s : string) : M unit := λ w,
  (World (alter (λ old, old +:+ s) f (files w)) (unwritable w), Ok tt).

(** *** Values *)

(** What is not a sequence: [None], a Python float (or a Python integer
    through its float conversion), a numpy float ([numpy.float64], which
    is what a float array hands back for one of its entries), a string.
    The two kinds of float are written and converted alike; they differ
    when indexed. *)
Inductive scalar :=
| SNone
| SNum (x : spec_float)
| SNp (x : spec_float)
| SStr (s : string).

(** A scalar, or a numpy array: its shape and its entries in row-major
    order. An array of shape [[]] is zero-dimensional. *)
Inductive value :=
| VSc (s : scalar)
| VArr (shape : list nat) (data : list scalar).

Abbreviation VNone := (VSc SNone).
Abbreviation VNum x := (VSc (SNum x)).
Abbreviation VNp x := (VSc (SNp x)).
Abbreviation VStr s := (VSc (SStr s)).

(** [numpy.array(v).shape] *)
Definition np_shape (v : value) : list nat :=
  match v with
  | VSc _ => []
  | VArr sh _ => sh
  end.

(** A scalar as an array holds it: a Python float becomes a numpy
    float, anything else is kept. *)
Definition cell (s : scalar) : scalar :=
  match s with
  | SNum x => SNp x
  | _ => s
  end.

(** [numpy.array([v])] *)
Definition np_array1 (v : value) : value :=
  match v with
  | VSc s => VArr [1%nat] [cell s]
  | VArr sh d => VArr (1%nat :: sh) d
  end.

(** [v is None] *)
Definition is_none (v : value) : bool :=
  match v with
  | VNone => true
  | _ => false
  end.

Definition size_of (sh : list nat) : nat := foldr Nat.mul 1%nat sh.

(** [len(v)] *)
Definition len (v : value) : res nat :=
  match v with
  | VArr (n :: _) _ => Ok n
  | VStr s => Ok (String.length s)
  | _ => Raise TypeError
  end.

(** [v[i]] for an index [i >= 0]. A Python float and [None] are not
    subscriptable ([TypeError]); a numpy float is, but takes no index
    ([IndexError]). *)
Definition getitem (v : value) (i : nat) : res value :=
  match v with
  | VArr [] _ => Raise IndexError
  | VArr [n] d =>
      if decide (i < n)%nat then
        match d !! i with
        | Some s => Ok (VSc s)
        | None => Raise IndexError
        end
      else Raise IndexError
  | VArr (n :: sh) d =>
      if decide (i < n)%nat
      then Ok (VArr sh (take (size_of sh) (drop (i * size_of sh) d)))
      else Raise IndexError
  | VStr s =>
      match String.get i s with
      | Some c => Ok (VStr (String c EmptyString))
      | None => Raise IndexError
      end
  | VNp _ => Raise IndexError
  | _ => Raise TypeError
  end.

(** [v[0,:]]: the first row of an array of two or more dimensions. *)
Definition getitem_0_all (v : value) : res value :=
  match v with
  | VArr (n :: m :: sh) d =>
      if decide (0 < n)%nat
      then Ok (VArr (m :: sh) (take (size_of (m :: sh)) d))
      else Raise IndexError
  | VArr _ _ => Raise IndexError
  | VNp _ => Raise IndexError
  | VSc _ => Raise TypeError
  end.

(** [float(v)], as [%f] applies it: a float of either kind, or a
    zero-dimensional array holding one (numpy 2; an array of one or
    more dimensions is refused whatever it holds). *)
Definition to_float (v : value) : res spec_float :=
  match v with
  | VNum x | VNp x => Ok x
  | VArr [] [SNum x] | VArr [] [SNp x] => Ok x
  | _ => Raise TypeError
  end.

(** ['%s' % v] is only used on strings here. *)
Definition to_str (v : value) : res string :=
  match v with
  | VStr s => Ok s
  | _ => Raise TypeError
  end.

(** *** Calls *)

(** Binding a call with positional and keyword arguments against the
    parameter list of the callee:
    each parameter with its default if it has one. The values come back
    in parameter order. *)
Fixpoint bind_from (params : list (string * option value))
    (args : list value) (kwargs : gmap string value) : res (list value) :=
  match params with
  | [] => match args with [] => Ok [] | _ => Raise TypeError end
  | (name, dflt) :: params' =>
      match args with
      | a :: args' =>
          match kwargs !! name with
          | Some _ => Raise TypeError
          | None =>
              match bind_from params' args' kwargs with
              | Ok vs => Ok (a :: vs)
              | Raise e => Raise e
              end
          end
      | [] =>
          match kwargs !! name, dflt with
          | Some v, _ | None, Some v =>
              match bind_from params' [] kwargs with
              | Ok vs => Ok (v :: vs)
              | Raise e => Raise e
              end
          | None, None => Raise TypeError
          end
      end
  end.

Definition bind_params (params : list (string * option value))
    (args : list value) (kwargs : gmap string value) : res (list value) :=
  if decide (dom kwargs ⊆ list_to_set (params.*1))
  then bind_from params args kwargs
  else Raise TypeError.

(** A Python callable applied to positional and keyword arguments. *)
Definition callable : Type := list value → gmap string value → M value.

End Py.

Import Py.

(** ** subprocess *)

(** How one run of an external program ends: it could not be started
    (not on the search path, no such working directory), or it ran and
    exited with a status, having produced diagnostic text on its two
    output streams. *)
Inductive launch :=
| NotStarted (reason : string)
| Exited (status : Z) (out err : string).

(** Where a child's output stream goes: [None] (inherited) or [PIPE]. *)
Inductive stream := Inherit | PIPE.

Section Ferre.

(** The operating system's side of [subprocess]: running the program
    named by [argv] in directory [cwd] may change the files and ends in
    a [launch]. *)
Variable spawn : list string → string → world → world * launch.

(** [apogee.tools.path.ferreModelLibraryPath(header=...)], a module of
    the package outside this file: the path of the default model grid,
    or an exception. *)
Variable ferreModelLibraryPath : bool → res string.

(** [numpy.log10] on a double, a function of the C library. *)
Variable log10 : spec_float → spec_float.

(** [subprocess.check_call(argv, cwd=, stdout=, stderr=)] *)
Definition check_call (argv : list string) (cwd : string)
    (stdout stderr : stream) : M Z := λ w,
  match spawn argv cwd w with
  | (w', NotStarted reason) => (w', Raise (OSError reason))
  | (w', Exited status _ _) =>
      if status =? 0 then (w', Ok 0) else (w', Raise (CalledProcessError status))
  end.

Definition scalar_log10 (s : scalar) : res scalar :=
  match s with
  | SNum x | SNp x => Ok (SNp (log10 x))
  | _ => Raise TypeError
  end.

Fixpoint map_res {A B} (f : A → res B) (l : list A) : res (list B) :=
  match l with
  | [] => Ok []
  | a :: l' =>
      match f a with
      | Ok b => match map_res f l' with Ok bs => Ok (b :: bs) | Raise e => Raise e end
      | Raise e => Raise e
      end
  end.

(** [numpy.log10(v)], entry by entry on an array. *)
Definition np_log10 (v : value) : res value :=
  match v with
  | VSc s => match scalar_log10 s with Ok s' => Ok (VSc s') | Raise e => Raise e end
  | VArr sh d => match map_res scalar_log10 d with Ok d' => Ok (VArr sh d') | Raise e => Raise e end
  end.

(** *** paramArrayInputDecorator (lines 8-29) *)

(** [args[i]] on the argument tuple. *)
Definition tuple_get (args : list value) (i : nat) : res value :=
  match args !! i with
  | Some a => Ok a
  | None => Raise IndexError
  end.

(** Lines 15-18: [(args[0],)] extended, for each later position, by that
    argument wrapped in a one-entry array. *)
Definition wrap_args (args : list value) : list value :=
  foldl (λ newargs ii,
           match args !! (ii + 1)%nat with
           | Some a => newargs ++ [np_array1 a]
           | None => newargs
           end)
        (take 1 args) (seq 0 (length args - 1)).

(** Lines 19-20: [vm] among the keyword arguments is wrapped when it is
    there and is not [None]. *)
Definition wrap_kwargs (kwargs : gmap string value) : gmap string value :=
  match kwargs !! "vm"%string with
  | Some v => if is_none v then kwargs else <["vm"%string := np_array1 v]> kwargs
  | None => kwargs
  end.

(** Line 13: [numpy.array(args[1]).shape == ()]. *)
Definition is_0d (v : value) : bool :=
  match np_shape v with
  | [] => true
  | _ => false
  end.

Definition paramArrayInputDecorator (func : callable) : callable :=
  λ args kwargs,
    a1 ← lift (tuple_get args 1);
    let scalarOut := is_0d a1 in
    let '(args, kwargs) :=
      if scalarOut then (wrap_args args, wrap_kwargs kwargs) else (args, kwargs) in
    result ← func args kwargs;
    if is_none result then mret result
    else if scalarOut then lift (getitem_0_all result)
    else mret result.

(** *** run_ferre (lines 31-56) *)

Definition run_ferre (dir : string) (verbose : bool) : M value :=
  let '(stdout, stderr) := if verbose then (Inherit, Inherit) else (PIPE, PIPE) in
  try_except
    (check_call ["ferre"%string] dir stdout stderr ;; mret tt)
    (λ e, match e with
          | CalledProcessError _ =>
              Some (raise (Exception ("Running FERRE instance in directory "
                                      +:+ dir +:+ " failed ...")))
          | _ => None
          end) ;;
  mret VNone.

(** *** write_input_nml (lines 58-105) *)

(** Line 94-96: the index list. *)
Definition indvstr (ndim : Z) : string :=
  foldl (λ acc ii, acc +:+ " " +:+ Text.fmt_i ii) "INDV =" (range 1 (ndim + 1)).

Definition write_input_nml (dir pfile offile : string) (ndim nov : Z)
    (synthfile : option string) (inter f_format f_access : Z) : M value :=
  synthfile ← match synthfile with
              | None => lift (ferreModelLibraryPath true)
              | Some s => mret s
              end;
  outfile ← open_w (Text.path_join dir "input.nml");
  write outfile ("&LISTA" +:+ Text.NL) ;;
  write outfile ("NDIM = " +:+ Text.fmt_i ndim +:+ Text.NL) ;;
  write outfile ("NOV = " +:+ Text.fmt_i nov +:+ Text.NL) ;;
  write outfile (indvstr ndim +:+ Text.NL) ;;
  write outfile ("SYNTHFILE(1) = '" +:+ synthfile +:+ "'" +:+ Text.NL) ;;
  write outfile ("PFILE = '" +:+ pfile +:+ "'" +:+ Text.NL) ;;
  write outfile ("OFFILE = '" +:+ offile +:+ "'" +:+ Text.NL) ;;
  write outfile ("INTER = " +:+ Text.fmt_i inter +:+ Text.NL) ;;
  write outfile ("F_FORMAT = " +:+ Text.fmt_i f_format +:+ Text.NL) ;;
  write outfile ("F_ACCESS = " +:+ Text.fmt_i f_access +:+ Text.NL) ;;
  write outfile ("/" +:+ Text.NL) ;;
  mret VNone.

(** The call with every optional parameter but [synthfile] left at its
    default: [ndim=6, nov=0, inter=3, f_format=1, f_access=1]. *)
Definition write_input_nml_defaults (dir pfile offile : string)
    (synthfile : option string) : M value :=
  write_input_nml dir pfile offile 6 0 synthfile 3 1 1.

(** *** write_interpolate_ipf (lines 107-139) *)

(** The parameter list of line 108-109. *)
Definition ipf_params : list (string * option value) :=
  [("dir", None); ("teff", None); ("logg", None); ("metals", None);
   ("am", None); ("nm", None); ("cm", None); ("vm", Some VNone)]%string.

(** Lines 132-138, one round of the loop. *)
Definition ipf_record (outfile : handle)
    (teff logg metals am nm cm vm : value) (ii : nat) : M unit :=
  let outStr := "dummy "%string in
  outStr ← (if is_none vm then mret outStr
            else
              v ← lift (getitem vm ii);
              l ← lift (np_log10 v);
              x ← lift (to_float l);
              mret (outStr +:+ Text.fmt_f 3 x +:+ " "));
  c ← lift (getitem cm ii);
  n ← lift (getitem nm ii);
  a ← lift (getitem am ii);
  m ← lift (getitem metals ii);
  g ← lift (getitem logg ii);
  t ← lift (getitem teff ii);
  c ← lift (to_float c);
  n ← lift (to_float n);
  a ← lift (to_float a);
  m ← lift (to_float m);
  g ← lift (to_float g);
  t ← lift (to_float t);
  write outfile (outStr +:+ Text.fmt_f 3 c +:+ " " +:+ Text.fmt_f 3 n +:+ " "
                 +:+ Text.fmt_f 3 a +:+ " " +:+ Text.fmt_f 3 m +:+ " "
                 +:+ Text.fmt_f 3 g +:+ " " +:+ Text.fmt_f 1 t +:+ Text.NL).

(** The function as written, before decoration. *)
Definition write_interpolate_ipf_wrapped : callable := λ args kwargs,
  bound ← lift (bind_params ipf_params args kwargs);
  match bound with
  | [dir; teff; logg; metals; am; nm; cm; vm] =>
      dir ← lift (to_str dir);
      outfile ← open_w (Text.path_join dir "input.ipf");
      n ← lift (len teff);
      for_each (seq 0 n) (ipf_record outfile teff logg metals am nm cm vm) ;;
      mret VNone
  | _ => raise TypeError
  end.

Definition write_interpolate_ipf : callable :=
  paramArrayInputDecorator write_interpolate_ipf_wrapped.

End Ferre.

(** ** The record file and the configuration file, as the specification
    describes them *)

(** A one-dimensional array of floats. *)
Definition arr1 (l : list spec_float) : value := VArr [length l] (SNp <$> l).

(** One parameter record: six quantities and the optional seventh. *)
Record star := Star {
  teff : spec_float;
  logg : spec_float;
  metals : spec_float;
  am : spec_float;
  nm : spec_float;
  cm : spec_float;
  vm : option spec_float
}.

(** The parameter sequences of one call, one list per quantity. *)
Record columns := Columns {
  c_teff : list spec_float;
  c_logg : list spec_float;
  c_metals : list spec_float;
  c_am : list spec_float;
  c_nm : list spec_float;
  c_cm : list spec_float;
  c_vm : option (list spec_float)
}.

(** The record at position [i], when every sequence has one. *)
Definition row_at (cs : columns) (i : nat) : option star :=
  v ← match c_vm cs with
      | None => Some None
      | Some l => Some <$> l !! i
      end;
  c ← c_cm cs !! i;
  n ← c_nm cs !! i;
  a ← c_am cs !! i;
  m ← c_metals cs !! i;
  g ← c_logg cs !! i;
  t ← c_teff cs !! i;
  Some (Star t g m a n c v).

(** The lengths of the sequences after the first. *)
Definition other_lengths (cs : columns) : list nat :=
  [length (c_logg cs); length (c_metals cs); length (c_am cs);
   length (c_nm cs); length (c_cm cs)]
  ++ match c_vm cs with None => [] | Some l => [length l] end.

(** The length of the shortest sequence. *)
Definition shortest (cs : columns) : nat :=
  foldr Nat.min (length (c_teff cs)) (other_lengths cs).

(** The fields of a record line after the placeholder, in column order. *)
Definition ipf_fields (log10 : spec_float → spec_float) (r : star) : list string :=
  match vm r with
  | Some v => [Text.fmt_f 3 (log10 v)]
  | None => []
  end
  ++ [Text.fmt_f 3 (cm r); Text.fmt_f 3 (nm r); Text.fmt_f 3 (am r);
      Text.fmt_f 3 (metals r); Text.fmt_f 3 (logg r); Text.fmt_f 1 (teff r)].

(** A record line: the placeholder, then the fields, one space between
    neighbours. *)
Definition ipf_line (log10 : spec_float → spec_float) (r : star) : string :=
  "dummy" +:+ foldr (λ f acc, " " +:+ f +:+ acc) EmptyString (ipf_fields log10 r).

(** The records the loop of lines 131-138 gets through: those at the
    positions [idx], in order, up to the first position that lacks one. *)
Fixpoint take_rows (cs : columns) (idx : list nat) : list star :=
  match idx with
  | [] => []
  | i :: idx' =>
      match row_at cs i with
      | Some r => r :: take_rows cs idx'
      | None => []
      end
  end.

(** Every position of [idx] has a record. *)
Definition complete (cs : columns) (idx : list nat) : bool :=
  forallb (λ i, bool_decide (is_Some (row_at cs i))) idx.

(** [vm] as a value: the array, or [None]. *)
Definition vm_value (cs : columns) : value :=
  match c_vm cs with
  | Some l => arr1 l
  | None => VNone
  end.

(** The sequences cut to the length [n]; the first is left whole. *)
Definition truncate (n : nat) (cs : columns) : columns :=
  Columns (c_teff cs) (take n (c_logg cs)) (take n (c_metals cs))
          (take n (c_am cs)) (take n (c_nm cs)) (take n (c_cm cs))
          (take n <$> c_vm cs).

(** The two ways of calling [write_interpolate_ipf]: every parameter a
    scalar, or every parameter a one-dimensional array; [vm], when given,
    by keyword. *)
Inductive ipf_input :=
| Scalars (r : star)
| Arrays (cs : columns).

Definition ipf_args (dir : string) (inp : ipf_input) : list value :=
  match inp with
  | Scalars r =>
      [VStr dir; VNum (teff r); VNum (logg r); VNum (metals r);
       VNum (am r); VNum (nm r); VNum (cm r)]
  | Arrays cs =>
      [VStr dir; arr1 (c_teff cs); arr1 (c_logg cs); arr1 (c_metals cs);
       arr1 (c_am cs); arr1 (c_nm cs); arr1 (c_cm cs)]
  end.

Definition ipf_kwargs (inp : ipf_input) : gmap string value :=
  match inp with
  | Scalars r =>
      match vm r with
      | Some v => {[ "vm"%string := VNum v ]}
      | None => ∅
      end
  | Arrays cs =>
      match c_vm cs with
      | Some l => {[ "vm"%string := arr1 l ]}
      | None => ∅
      end
  end.

(** The sequences the writer works on. *)
Definition ipf_columns (inp : ipf_input) : columns :=
  match inp with
  | Scalars r =>
      Columns [teff r] [logg r] [metals r] [am r] [nm r] [cm r]
              (match vm r with Some v => Some [v] | None => None end)
  | Arrays cs => cs
  end.

Definition has_vm (inp : ipf_input) : bool :=
  match c_vm (ipf_columns inp) with
  | Some _ => true
  | None => false
  end.

(** The lines of the configuration file. *)
Definition nml_lines (pfile offile : string) (ndim nov : Z)
    (synthfile : string) (inter f_format f_access : Z) : list string :=
  [ "&LISTA";
    "NDIM = " +:+ Text.fmt_i ndim;
    "NOV = " +:+ Text.fmt_i nov;
    "INDV =" +:+ foldr (λ ii acc, " " +:+ Text.fmt_i ii +:+ acc) EmptyString
                       (range 1 (ndim + 1));
    "SYNTHFILE(1) = '" +:+ synthfile +:+ "'";
    "PFILE = '" +:+ pfile +:+ "'";
    "OFFILE = '" +:+ offile +:+ "'";
    "INTER = " +:+ Text.fmt_i inter;
    "F_FORMAT = " +:+ Text.fmt_i f_format;
    "F_ACCESS = " +:+ Text.fmt_i f_access;
    "/" ]%string.

(** The model grid header a call ends up with. *)
Definition resolve_synthfile (ferreModelLibraryPath : bool → res string)
    (synthfile : option string) : res string :=
  match synthfile with
  | None => ferreModelLibraryPath true
  | Some s => Ok s
  end.

(** What [run_ferre] can see of a finished run: the diagnostic text
    of the two streams is dropped. *)
Definition status_of (l : launch) : launch :=
  match l with
  | NotStarted reason => NotStarted reason
  | Exited status _ _ => Exited status EmptyString EmptyString
  end.

(** ** One round of the record loop, without the file

    The text lines 132-137 build at position [ii], or the exception they
    raise before anything is written. *)

#[global] Instance res_ret : MRet res := λ A a, Ok a.
#[global] Instance res_bind : MBind res := λ A B f r,
  match r with
  | Ok a => f a
  | Raise e => Raise e
  end.

Definition record_text (log10 : spec_float → spec_float)
    (teff logg metals am nm cm vm : value) (ii : nat) : res string :=
  outStr ← (if is_none vm then Ok "dummy "%string
            else
              v ← getitem vm ii;
              l ← np_log10 log10 v;
              x ← to_float l;
              Ok ("dummy " +:+ Text.fmt_f 3 x +:+ " "));
  c ← getitem cm ii;
  n ← getitem nm ii;
  a ← getitem am ii;
  m ← getitem metals ii;
  g ← getitem logg ii;
  t ← getitem teff ii;
  c ← to_float c;
  n ← to_float n;
  a ← to_float a;
  m ← to_float m;
  g ← to_float g;
  t ← to_float t;
  Ok (outStr +:+ Text.fmt_f 3 c +:+ " " +:+ Text.fmt_f 3 n +:+ " "
      +:+ Text.fmt_f 3 a +:+ " " +:+ Text.fmt_f 3 m +:+ " "
      +:+ Text.fmt_f 3 g +:+ " " +:+ Text.fmt_f 1 t +:+ Text.NL).

(** A value that is not a string, as a directory would have to be. *)
Definition is_str (v : value) : bool :=
  match v with
  | VStr _ => true
  | _ => false
  end.

(** Two sets of sequences one after the other, quantity by quantity. *)
Definition append_columns (cs cs' : columns) : columns :=
  Columns (c_teff cs ++ c_teff cs') (c_logg cs ++ c_logg cs')
          (c_metals cs ++ c_metals cs') (c_am cs ++ c_am cs')
          (c_nm cs ++ c_nm cs') (c_cm cs ++ c_cm cs')
          (match c_vm cs, c_vm cs' with
           | Some l, Some l' => Some (l ++ l')
           | _, _ => None
           end).

(** Every sequence has the length of the first. *)
Definition rectangular (cs : columns) : Prop :=
  Forall (λ k, k = length (c_teff cs)) (other_lengths cs).

(** The text of the record file for a set of sequences. *)
Definition ipf_text (log10 : spec_float → spec_float) (cs : columns) : string :=
  Text.unlines (ipf_line log10 <$> take_rows cs (seq 0 (length (c_teff cs)))).

(** ** Sample surroundings

    A store with no file and no refused path, a package whose default
    grid header is known and one where the lookup fails, runs of the
    external program with each kind of ending, and a stand-in for the
    logarithm (the theorems hold for any). *)

Definition empty_world : world := World ∅ ∅.

Definition library_found : bool → res string := λ _, Ok "lib/f_apsasGK.hdr"%string.

Definition library_missing : bool → res string := λ _, Raise (OSError "no library").

Definition spawn_exits (status : Z) (out err : string)
  : list string → string → world → world * launch :=
  λ _ _ w, (w, Exited status out err).

Definition spawn_fails (reason : string)
  : list string → string → world → world * launch :=
  λ _ _ w, (w, NotStarted reason).

Definition log10_stub : spec_float → spec_float := λ x, x.

(** A one-entry array, and the keyword arguments with [vm] set to a
    value or left out. *)
Definition one (s : scalar) : value := VArr [1%nat] [cell s].

Definition with_vm (vm : option value) (kw : gmap string value) : gmap string value :=
  match vm with
  | Some v => <["vm"%string := v]> kw
  | None => delete "vm"%string kw
  end.

(** [vm] as the wrapped function gets it in scalar mode: [None] stays. *)
Definition wrapped_vm (s : scalar) : value :=
  match s with
  | SNone => VNone
  | _ => one s
  end.

(** The Sun: 5777 K, log g = 4.4375, solar abundances. *)
Definition sun : star :=
  Star (S754_finite false 5777 0) (S754_finite false 71 (-4))
       (S754_zero false) (S754_zero false) (S754_zero false) (S754_zero false) None.

(** A callable that returns a two-row table whatever it is given, one
    that returns a flat array, and one that returns [None]. *)
Definition table_func : callable :=
  λ _ _, mret (VArr [2%nat; 2%nat] [SNp (S754_zero false); SNp (S754_zero true);
                                   SNp S754_nan; SNp S754_nan]).

Definition none_func : callable := λ _ _, mret VNone.

(** Two records as arrays, the same with a carbon sequence one entry
    short, and with a microturbulence of 2 km/s given by keyword. *)
Definition two_stars : columns :=
  Columns [S754_finite false 4750 0; S754_finite false 5777 0]
          [S754_finite false 5 (-1); S754_finite false 71 (-4)]
          [S754_finite true 1 (-1); S754_zero false]
          [S754_finite false 1 (-2); S754_zero false]
          [S754_zero false; S754_zero false]
          [S754_finite true 1 (-4); S754_zero false]
          None.

Definition short_carbon : columns :=
  Columns (c_teff two_stars) (c_logg two_stars) (c_metals two_stars)
          (c_am two_stars) (c_nm two_stars) [S754_finite true 1 (-4)] None.

Definition sun_vm : star :=
  Star (teff sun) (logg sun) (metals sun) (am sun) (nm sun) (cm sun)
       (Some (S754_finite false 2 0)).

(** ** Sample evaluations *)

Example fmt_i_6 : Text.fmt_i 6 = "6"%string.
Proof. reflexivity. Qed.

Example fmt_i_neg : Text.fmt_i (-12) = "-12"%string.
Proof. reflexivity. Qed.

(** 4750.0 = 4750 * 2^0,  0.0625 = 1 * 2^-4,  2.5 = 5 * 2^-1,
    -0.0005 is not a float, but -(1 * 2^-11) = -0.00048828125 is. *)
Example fmt_f_teff : Text.fmt_f 1 (S754_finite false 4750 0) = "4750.0"%string.
Proof. reflexivity. Qed.

Example fmt_f_tie_even : Text.fmt_f 3 (S754_finite false 1 (-4)) = "0.062"%string.
Proof. reflexivity. Qed.

Example fmt_f_tie_even0 : Text.fmt_f 0 (S754_finite false 5 (-1)) = "2"%string.
Proof. reflexivity. Qed.

Example fmt_f_neg_small : Text.fmt_f 3 (S754_finite true 1 (-11)) = "-0.000"%string.
Proof. reflexivity. Qed.

Example fmt_f_neg : Text.fmt_f 3 (S754_finite true 3 (-2)) = "-0.750"%string.
Proof. reflexivity. Qed.

Example lines_ex : Text.lines (Text.unlines ["a b"; ""; "c"]%string) = ["a b"; ""; "c"]%string.
Proof. reflexivity. Qed.

Example split_ex : Text.split_on " " "dummy 1.0 2"%string = ["dummy"; "1.0"; "2"]%string.
Proof. reflexivity. Qed.


Example path_join_plain : Text.path_join "run" "input.nml" = "run/input.nml"%string.
Proof. reflexivity. Qed.

Example path_join_slash : Text.path_join "run/" "input.nml" = "run/input.nml"%string.
Proof. reflexivity. Qed.

Example path_join_here : Text.path_join "" "input.nml" = "input.nml"%string.
Proof. reflexivity. Qed.

Example indvstr_3 : indvstr 3 = "INDV = 1 2 3"%string.
Proof. reflexivity. Qed.

Example indvstr_0 : indvstr 0 = "INDV ="%string.
Proof. reflexivity. Qed.

(** Two records, no microturbulence: two lines, [None]. *)
Example ipf_two_stars :
  let '(w', res) := write_interpolate_ipf log10_stub (ipf_args "run" (Arrays two_stars))
                      (ipf_kwargs (Arrays two_stars)) empty_world in
  res = Ok VNone
  ∧ Text.lines <$> files w' !! "run/input.ipf"%string
    = Some ["dummy -0.062 0.000 0.250 -0.500 2.500 4750.0";
            "dummy 0.000 0.000 0.000 0.000 4.438 5777.0"]%string.
Proof. vm_compute. split; reflexivity. Qed.

(** The carbon sequence one entry short: the first line is written,
    then the second round raises. *)
Example ipf_short_carbon :
  let '(w', res) := write_interpolate_ipf log10_stub (ipf_args "run" (Arrays short_carbon))
                      (ipf_kwargs (Arrays short_carbon)) empty_world in
  res = Raise IndexError
  ∧ Text.lines <$> files w' !! "run/input.ipf"%string
    = Some ["dummy -0.062 0.000 0.250 -0.500 2.500 4750.0"]%string.
Proof. vm_compute. split; reflexivity. Qed.

(** Scalars and a microturbulence by keyword (the stand-in logarithm
    leaves 2.0 as it is): one line of seven fields. *)
Example ipf_sun_vm :
  let '(w', res) := write_interpolate_ipf log10_stub (ipf_args "run" (Scalars sun_vm))
                      (ipf_kwargs (Scalars sun_vm)) empty_world in
  res = Ok VNone
  ∧ Text.lines <$> files w' !! "run/input.ipf"%string
    = Some ["dummy 2.000 0.000 0.000 0.000 0.000 4.438 5777.0"]%string.
Proof. vm_compute. split; reflexivity. Qed.

(** A scalar temperature with an array gravity: the row of the wrapped
    gravity holds two numbers and [%.3f] refuses it. *)
Example ipf_mixed :
  (write_interpolate_ipf log10_stub
     [VStr "run"; VNum (teff sun); arr1 [logg sun; logg sun]; VNum (metals sun);
      VNum (am sun); VNum (nm sun); VNum (cm sun)] ∅ empty_world).2
  = Raise TypeError.
Proof. vm_compute. reflexivity. Qed.

(** In scalar mode a table loses its first axis, a flat result cannot. *)
Example decorator_table :
  (paramArrayInputDecorator table_func [VStr "run"; VNum (teff sun)] ∅ empty_world).2
  = Ok (VArr [2%nat] [SNp (S754_zero false); SNp (S754_zero true)]).
Proof. vm_compute. reflexivity. Qed.

Example decorator_flat :
  (paramArrayInputDecorator (λ _ _, mret (arr1 [teff sun]))
     [VStr "run"; VNum (teff sun)] ∅ empty_world).2
  = Raise IndexError.
Proof. vm_compute. reflexivity. Qed.

Example decorator_no_parameter :
  (paramArrayInputDecorator none_func [VStr "run"] ∅ empty_world).2 = Raise IndexError.
Proof. vm_compute. reflexivity. Qed.

(** Indexing tells the two kinds of float apart; [%f] takes both, and
    of the arrays only a zero-dimensional one. *)
Example getitem_python_float : getitem (VNum (teff sun)) 0 = Raise TypeError.
Proof. reflexivity. Qed.

Example getitem_numpy_float : getitem (VNp (teff sun)) 0 = Raise IndexError.
Proof. reflexivity. Qed.

Example getitem_entry : getitem (np_array1 (VNum (teff sun))) 0 = Ok (VNp (teff sun)).
Proof. reflexivity. Qed.

Example to_float_one_entry : to_float (arr1 [teff sun]) = Raise TypeError.
Proof. reflexivity. Qed.

Example to_float_0d : to_float (VArr [] [SNp (teff sun)]) = Ok (teff sun).
Proof. reflexivity. Qed.

Example decorator_numpy_float :
  (paramArrayInputDecorator (λ _ _, mret (VNp (teff sun)))
     [VStr "run"; VNum (teff sun)] ∅ empty_world).2
  = Raise IndexError.
Proof. vm_compute. reflexivity. Qed.

Example decorator_python_float :
  (paramArrayInputDecorator (λ _ _, mret (VNum (teff sun)))
     [VStr "run"; VNum (teff sun)] ∅ empty_world).2
  = Raise TypeError.
Proof. vm_compute. reflexivity. Qed.

(** A zero microturbulence: whatever the logarithm returns is written;
    with minus infinity that is the word [-inf]. *)
Example ipf_vm_zero :
  let r := Star (teff sun) (logg sun) (metals sun) (am sun) (nm sun) (cm sun)
                (Some (S754_zero false)) in
  let '(w', res) := write_interpolate_ipf (λ _, S754_infinity true)
                      (ipf_args "run" (Scalars r)) (ipf_kwargs (Scalars r)) empty_world in
  res = Ok VNone
  ∧ Text.lines <$> files w' !! "run/input.ipf"%string
    = Some ["dummy -inf 0.000 0.000 0.000 0.000 4.438 5777.0"]%string.
Proof. vm_compute. split; reflexivity. Qed.

(** ** Facts about text *)

Section TextFacts.

Import Text.

(** Appending to a text that starts with a known character unfolds. *)
#[local] Arguments String.append !_ _ / : simpl nomatch.

Lemma app_assoc_s (a b c : string) : (a +:+ b) +:+ c = a +:+ b +:+ c.
Proof. induction a as [|x a IH]; simpl; [reflexivity | now rewrite IH]. Qed.

Lemma app_nil_r_s (a : string) : a +:+ EmptyString = a.
Proof. induction a as [|x a IH]; simpl; [reflexivity | now rewrite IH]. Qed.

Lemma length_app_s (a b : string) :
  String.length (a +:+ b) = (String.length a + String.length b)%nat.
Proof. induction a as [|x a IH]; simpl; [reflexivity | now rewrite IH]. Qed.

Lemma all_chars_app P (a b : string) :
  all_chars P (a +:+ b) = all_chars P a && all_chars P b.
Proof.
  induction a as [|x a IH]; simpl; [reflexivity |].
  rewrite IH. now rewrite andb_assoc.
Qed.

Lemma lacks_app c (a b : string) : lacks c (a +:+ b) = lacks c a && lacks c b.
Proof.
  induction a as [|x a IH]; simpl; [reflexivity |].
  rewrite IH. now rewrite andb_assoc.
Qed.

(** A text over an alphabet that excludes [c] does not contain [c]. *)
Lemma all_chars_lacks P c (s : string) :
  P c = false → all_chars P s = true → lacks c s = true.
Proof.
  intros Hc. induction s as [|x s IH]; simpl; [reflexivity |].
  intros [Hx Hs]%andb_true_iff. rewrite (IH Hs), andb_true_r.
  destruct (Ascii.eqb_spec x c) as [->|]; [congruence | reflexivity].
Qed.

Lemma all_chars_weaken (P Q : ascii → bool) (s : string) :
  (∀ c, P c = true → Q c = true) → all_chars P s = true → all_chars Q s = true.
Proof.
  intros HPQ. induction s as [|x s IH]; simpl; [reflexivity |].
  intros [Hx Hs]%andb_true_iff. now rewrite (HPQ _ Hx), (IH Hs).
Qed.

Lemma split_on_cons c (s : string) : ∃ w ws, split_on c s = w :: ws.
Proof.
  induction s as [|x s (w & ws & IH)]; simpl; [eauto |].
  destruct (Ascii.eqb x c); [eauto |]. rewrite IH. eauto.
Qed.

(** A text without the separator is one piece. *)
Lemma split_on_lacks c (s : string) : lacks c s = true → split_on c s = [s].
Proof.
  induction s as [|x s IH]; simpl; [reflexivity |].
  intros [Hx Hs]%andb_true_iff.
  apply negb_true_iff in Hx. rewrite Hx, (IH Hs). reflexivity.
Qed.

(** The first piece ends at the first separator. *)
Lemma split_on_app c (a b : string) :
  lacks c a = true → split_on c (a +:+ String c b) = a :: split_on c b.
Proof.
  induction a as [|x a IH]; simpl.
  - intros _. now rewrite Ascii.eqb_refl.
  - intros [Hx Ha]%andb_true_iff.
    apply negb_true_iff in Hx. rewrite Hx, (IH Ha). reflexivity.
Qed.

Lemma lines_cons (l rest : string) :
  lacks nl l = true → lines (l +:+ NL +:+ rest) = l :: lines rest.
Proof.
  intros Hl. unfold lines, NL. simpl. rewrite (split_on_app _ _ _ Hl).
  destruct (split_on_cons nl rest) as (w & ws & ->).
  simpl. destruct l; reflexivity.
Qed.

Lemma unlines_cons (l : string) (ls : list string) :
  unlines (l :: ls) = l +:+ NL +:+ unlines ls.
Proof. reflexivity. Qed.

(** Reading back what was written line by line. *)
Lemma lines_unlines (ls : list string) :
  Forall (λ l, lacks nl l = true) ls → lines (unlines ls) = ls.
Proof.
  induction 1 as [|l ls Hl _ IH]; [reflexivity |].
  now rewrite unlines_cons, (lines_cons _ _ Hl), IH.
Qed.

Lemma unlines_app (ls ls' : list string) :
  unlines (ls ++ ls') = unlines ls +:+ unlines ls'.
Proof.
  induction ls as [|l ls IH]; [reflexivity |].
  rewrite <- app_comm_cons, !unlines_cons, IH.
  now rewrite !app_assoc_s.
Qed.

End TextFacts.

(** ** Facts about the number formats *)

Section FormatFacts.

Import Text.

#[local] Arguments String.append !_ _ / : simpl nomatch.

Lemma uint_digits (d : Decimal.uint) :
  all_chars is_digit (NilEmpty.string_of_uint d) = true.
Proof. induction d; simpl; auto. Qed.

Lemma digits_all_digit (n : N) : all_chars is_digit (digits n) = true.
Proof.
  unfold digits, NilZero.string_of_uint.
  destruct (N.to_uint n) eqn:E; try reflexivity; rewrite <- E; apply uint_digits.
Qed.

Lemma digits_nonempty (n : N) : nonempty (digits n) = true.
Proof.
  unfold digits, NilZero.string_of_uint.
  destruct (N.to_uint n); reflexivity.
Qed.

Lemma fmt_i_chars (z : Z) : all_chars int_char (fmt_i z) = true.
Proof.
  unfold fmt_i, NilZero.string_of_int.
  assert (Hd : ∀ d, all_chars int_char (NilZero.string_of_uint d) = true).
  { intros d. apply all_chars_weaken with (P := is_digit).
    - intros c Hc. unfold int_char. now rewrite Hc.
    - unfold NilZero.string_of_uint.
      destruct d eqn:E; try reflexivity; rewrite <- E; apply uint_digits. }
  destruct (Z.to_int z); simpl; auto.
Qed.

(** [%i] never produces a space, a quote or a line terminator. *)
Lemma fmt_i_lacks (c : ascii) (z : Z) : int_char c = false → lacks c (fmt_i z) = true.
Proof. intros Hc. eapply all_chars_lacks; [exact Hc | apply fmt_i_chars]. Qed.

Lemma digit_char_is_digit (d : N) : (d < 10)%N → is_digit (digit_char d) = true.
Proof.
  intros Hd. unfold is_digit, digit_char.
  rewrite N_ascii_embedding by lia.
  apply andb_true_iff; split; apply N.leb_le; lia.
Qed.

Lemma low_digits_length (p : nat) (n : N) : String.length (low_digits p n) = p.
Proof.
  revert n. induction p as [|p IH]; intros n; simpl; [reflexivity |].
  rewrite length_app_s, IH. simpl. lia.
Qed.

Lemma low_digits_all_digit (p : nat) (n : N) :
  all_chars is_digit (low_digits p n) = true.
Proof.
  revert n. induction p as [|p IH]; intros n; simpl; [reflexivity |].
  rewrite all_chars_app, IH. simpl.
  rewrite digit_char_is_digit; [reflexivity |].
  apply N.mod_lt. lia.
Qed.

Lemma is_digit_not_point : is_digit "." = false.
Proof. reflexivity. Qed.

(** The fixed-point text has digits, and for [p > 0] a point and
    exactly [p] more digits. *)
Lemma fixed_unsigned_decimal (p : nat) (n : N) : unsigned_decimal p (fixed p n) = true.
Proof.
  unfold unsigned_decimal, fixed. destruct p as [|p].
  - rewrite split_on_lacks
      by (eapply all_chars_lacks; [exact is_digit_not_point | apply digits_all_digit]).
    now rewrite digits_nonempty, digits_all_digit.
  - set (q := (n / 10 ^ N.of_nat (S p))%N).
    set (r := (n mod 10 ^ N.of_nat (S p))%N).
    change (digits q +:+ "." +:+ low_digits (S p) r)
      with (digits q +:+ String "." (low_digits (S p) r)).
    rewrite split_on_app
      by (eapply all_chars_lacks; [exact is_digit_not_point | apply digits_all_digit]).
    rewrite split_on_lacks
      by (eapply all_chars_lacks; [exact is_digit_not_point | apply low_digits_all_digit]).
    rewrite digits_nonempty, digits_all_digit, low_digits_length, low_digits_all_digit.
    now rewrite Nat.eqb_refl.
Qed.

Lemma digits_first (n : N) : ∃ c s, digits n = String c s ∧ is_digit c = true.
Proof.
  pose proof (digits_nonempty n) as Hne. pose proof (digits_all_digit n) as Hd.
  destruct (digits n) as [|c s]; [discriminate |].
  simpl in Hd. apply andb_true_iff in Hd as [Hc _]. eauto.
Qed.

Lemma fixed_decimal (p : nat) (n : N) : decimal p (fixed p n) = true.
Proof.
  pose proof (fixed_unsigned_decimal p n) as Hu.
  assert (H : ∃ c s, fixed p n = String c s ∧ is_digit c = true).
  { unfold fixed. destruct p.
    - apply digits_first.
    - destruct (digits_first (n / 10 ^ N.of_nat (S p))) as (c & s & -> & Hc).
      simpl. eauto. }
  destruct H as (c & s & E & Hc). rewrite E in Hu |- *. simpl.
  destruct (Ascii.eqb_spec c "-") as [->|]; [discriminate | exact Hu].
Qed.

(** A finite float is written as a decimal numeral with exactly [p]
    fraction digits. *)
Lemma fmt_f_finite_decimal (p : nat) (s : bool) (m : positive) (e : Z) :
  decimal p (fmt_f p (S754_finite s m e)) = true.
Proof.
  simpl. destruct s; simpl.
  - apply fixed_unsigned_decimal.
  - apply fixed_decimal.
Qed.

Lemma fmt_f_zero_decimal (p : nat) (s : bool) :
  decimal p (fmt_f p (S754_zero s)) = true.
Proof.
  simpl. destruct s; simpl.
  - apply fixed_unsigned_decimal.
  - apply fixed_decimal.
Qed.

(** Whatever the float, [%.pf] writes it as [written] says. *)
Lemma fmt_f_written (p : nat) (x : spec_float) : written p x (fmt_f p x).
Proof.
  split; [reflexivity |]. destruct x as [s|s| |s m e]; cbn [is_finite].
  - apply fmt_f_zero_decimal.
  - destruct s; cbn; auto.
  - cbn; auto.
  - apply fmt_f_finite_decimal.
Qed.

Lemma fixed_chars (p : nat) (n : N) : all_chars float_char (fixed p n) = true.
Proof.
  assert (Hd : ∀ s, all_chars is_digit s = true → all_chars float_char s = true).
  { intros s. apply all_chars_weaken. intros c Hc. unfold float_char. now rewrite Hc. }
  unfold fixed. destruct p.
  - apply Hd, digits_all_digit.
  - rewrite !all_chars_app, (Hd _ (digits_all_digit _)).
    now rewrite (Hd _ (low_digits_all_digit _ _)).
Qed.

Lemma fmt_f_chars (p : nat) (x : spec_float) : all_chars float_char (fmt_f p x) = true.
Proof.
  destruct x as [s|s| |s m e]; simpl; try (destruct s; simpl; try reflexivity);
    try reflexivity; apply fixed_chars.
Qed.

(** [%.pf] never produces a space or a line terminator. *)
Lemma fmt_f_lacks (c : ascii) (p : nat) (x : spec_float) :
  float_char c = false → lacks c (fmt_f p x) = true.
Proof. intros Hc. eapply all_chars_lacks; [exact Hc | apply fmt_f_chars]. Qed.

(** The rounding of [%.pf] is to a nearest integer: the result is within
    half a unit of [m / 2^k], and it is even when exactly half a unit
    away. *)
Lemma round_half_even_nearest (m k : N) :
  let q := round_half_even m k in
  (2 * m <= 2 * q * 2 ^ k + 2 ^ k)%N
  ∧ (2 * q * 2 ^ k <= 2 * m + 2 ^ k)%N
  ∧ ((2 * m = 2 * q * 2 ^ k + 2 ^ k ∨ 2 * q * 2 ^ k = 2 * m + 2 ^ k)%N → N.even q = true).
Proof.
  unfold round_half_even.
  rewrite N.shiftr_div_pow2, !N.shiftl_mul_pow2, N.mul_1_l.
  assert (Hpos : (0 < 2 ^ k)%N) by (apply N.neq_0_lt_0, N.pow_nonzero; discriminate).
  pose proof (N.div_mod m (2 ^ k) ltac:(lia)) as Hdm.
  pose proof (N.mod_lt m (2 ^ k) ltac:(lia)) as Hlt.
  set (d := (m / 2 ^ k)%N) in *. set (r := (m mod 2 ^ k)%N) in *.
  set (b := (2 ^ k)%N) in *.
  assert (Hr : (m - d * b = r)%N) by nia. rewrite Hr.
  destruct (N.ltb_spec (2 * r) b) as [H1|H1]; cbn zeta.
  - split; [nia | split; [nia | intros [H|H]; nia]].
  - destruct (N.ltb_spec b (2 * r)) as [H2|H2].
    + split; [nia | split; [nia | intros [H|H]; nia]].
    + destruct (N.even d) eqn:Ev.
      * split; [nia | split; [nia | intros _; exact Ev]].
      * split; [nia | split; [nia | intros _]].
        rewrite N.add_1_r, N.even_succ, <- N.negb_even, Ev. reflexivity.
Qed.

End FormatFacts.

(** ** Facts about the run time *)

Section MonadFacts.

Lemma bind_ok {A B} (m : M A) (f : A → M B) (w w' : world) (a : A) :
  m w = (w', Ok a) → (m ≫= f) w = f a w'.
Proof. intros H. unfold mbind, M_bind. now rewrite H. Qed.

Lemma bind_raise {A B} (m : M A) (f : A → M B) (w w' : world) (e : exn) :
  m w = (w', Raise e) → (m ≫= f) w = (w', Raise e).
Proof. intros H. unfold mbind, M_bind. now rewrite H. Qed.

Lemma lift_bind_ok {A B} (a : A) (f : A → M B) (w : world) :
  (lift (Ok a) ≫= f) w = f a w.
Proof. reflexivity. Qed.

Lemma lift_bind_raise {A B} (e : exn) (f : A → M B) (w : world) :
  (lift (Raise e) ≫= f) w = (w, Raise e).
Proof. reflexivity. Qed.

Lemma open_w_ok (path : string) (w : world) :
  path ∉ unwritable w →
  open_w path w = (World (<[path := EmptyString]> (files w)) (unwritable w), Ok path).
Proof. intros H. unfold open_w. now rewrite decide_False. Qed.

Lemma open_w_refused (path : string) (w : world) :
  path ∈ unwritable w → open_w path w = (w, Raise (OSError path)).
Proof. intros H. unfold open_w. now rewrite decide_True. Qed.

(** Writing to a file that holds [txt] leaves [txt] followed by [s]. *)
Lemma write_after (f : handle) (s txt : string) (m : gmap string string) u :
  write f s (World (<[f := txt]> m) u) = (World (<[f := txt +:+ s]> m) u, Ok tt).
Proof. unfold write. simpl. now rewrite alter_insert_eq. Qed.

Lemma write_bind {B} (f : handle) (s txt : string) (m : gmap string string) u
    (k : unit → M B) :
  (write f s ≫= k) (World (<[f := txt]> m) u) = k tt (World (<[f := txt +:+ s]> m) u).
Proof. apply bind_ok, write_after. Qed.

End MonadFacts.

(** ** write_input_nml *)

Section NmlFacts.

Import Text.

Variable ferreModelLibraryPath : bool → res string.

(** The loop of lines 95-96 builds the index list left to right. *)
Lemma foldl_append (f : Z → string) (l : list Z) (init : string) :
  foldl (λ acc ii, acc +:+ " " +:+ f ii) init l
  = init +:+ foldr (λ ii acc, " " +:+ f ii +:+ acc) EmptyString l.
Proof.
  revert init. induction l as [|x l IH]; intros init; simpl.
  - now rewrite app_nil_r_s.
  - rewrite IH. now rewrite !app_assoc_s.
Qed.

Lemma indvstr_eq (ndim : Z) :
  indvstr ndim
  = "INDV =" +:+ foldr (λ ii acc, " " +:+ fmt_i ii +:+ acc) EmptyString (range 1 (ndim + 1)).
Proof. apply foldl_append. Qed.

(** The whole effect of a call that gets its grid header and may open
    the file: the file holds the eleven lines, the call returns [None]. *)
Lemma write_input_nml_spec dir pfile offile ndim nov synthfile inter f_format f_access
    (s : string) (w : world) :
  resolve_synthfile ferreModelLibraryPath synthfile = Ok s →
  path_join dir "input.nml" ∉ unwritable w →
  write_input_nml ferreModelLibraryPath dir pfile offile ndim nov synthfile
                  inter f_format f_access w
  = (World (<[path_join dir "input.nml" :=
               unlines (nml_lines pfile offile ndim nov s inter f_format f_access)]>
             (files w)) (unwritable w),
     Ok VNone).
Proof.
  intros Hs Hw. unfold write_input_nml.
  rewrite (bind_ok _ _ w w s).
  2:{ destruct synthfile; simpl in Hs; [now inversion Hs | unfold lift; now rewrite Hs]. }
  rewrite (bind_ok _ _ _ _ _ (open_w_ok _ _ Hw)).
  rewrite !write_bind. unfold mret, M_ret.
  do 3 f_equal. rewrite indvstr_eq. unfold nml_lines.
  rewrite !unlines_cons. unfold unlines. simpl foldr.
  now rewrite !app_assoc_s, ?app_nil_r_s.
Qed.

(** No file, no lines: a refused [open] leaves the store as it was. *)
Lemma write_input_nml_refused dir pfile offile ndim nov synthfile inter f_format f_access
    (s : string) (w : world) :
  resolve_synthfile ferreModelLibraryPath synthfile = Ok s →
  path_join dir "input.nml" ∈ unwritable w →
  write_input_nml ferreModelLibraryPath dir pfile offile ndim nov synthfile
                  inter f_format f_access w
  = (w, Raise (OSError (path_join dir "input.nml"))).
Proof.
  intros Hs Hw. unfold write_input_nml.
  rewrite (bind_ok _ _ w w s).
  2:{ destruct synthfile; simpl in Hs; [now inversion Hs | unfold lift; now rewrite Hs]. }
  now rewrite (bind_raise _ _ _ _ _ (open_w_refused _ _ Hw)).
Qed.

End NmlFacts.

(** ** The configuration file: claims *)

Section NmlClaims.

Import Text.

Lemma indv_tail_lacks (c : ascii) (l : list Z) :
  int_char c = false → Ascii.eqb " " c = false →
  lacks c (foldr (λ ii acc, " " +:+ fmt_i ii +:+ acc) EmptyString l) = true.
Proof.
  intros Hc Hsp. induction l as [|x l IH]; [reflexivity |].
  simpl foldr. rewrite !lacks_app, IH, (fmt_i_lacks _ _ Hc).
  cbn [lacks]. now rewrite Hsp.
Qed.

(** C1, as amended. With every numeric option at its default and a
    grid header supplied, the file at [<dir>/input.nml] consists of
    exactly eleven lines, in this order: open marker, NDIM, NOV, INDV
    with the integers 1 to 6, SYNTHFILE(1), PFILE, OFFILE, INTER,
    F_FORMAT, F_ACCESS, close marker. (The three names are taken to be
    free of line terminators, and the path to be one the system opens.) *)
Theorem nml_defaults_eleven_lines
    (lib : bool → res string) (dir pfile offile synthfile : string) (w : world) :
  lacks nl synthfile = true → lacks nl pfile = true → lacks nl offile = true →
  path_join dir "input.nml" ∉ unwritable w →
  ∃ w', write_input_nml_defaults lib dir pfile offile (Some synthfile) w = (w', Ok VNone)
    ∧ lines <$> files w' !! path_join dir "input.nml"
      = Some [ "&LISTA"; "NDIM = 6"; "NOV = 0"; "INDV = 1 2 3 4 5 6";
               "SYNTHFILE(1) = '" +:+ synthfile +:+ "'";
               "PFILE = '" +:+ pfile +:+ "'";
               "OFFILE = '" +:+ offile +:+ "'";
               "INTER = 3"; "F_FORMAT = 1"; "F_ACCESS = 1"; "/" ]%string.
Proof.
  intros Hs Hp Ho Hw. eexists. split.
  - unfold write_input_nml_defaults.
    apply write_input_nml_spec with (s := synthfile); [reflexivity | exact Hw].
  - cbn [files]. rewrite lookup_insert_eq. cbn [fmap option_fmap option_map]. f_equal.
    change (nml_lines pfile offile 6 0 synthfile 3 1 1)
      with [ "&LISTA"; "NDIM = 6"; "NOV = 0"; "INDV = 1 2 3 4 5 6";
             "SYNTHFILE(1) = '" +:+ synthfile +:+ "'";
             "PFILE = '" +:+ pfile +:+ "'";
             "OFFILE = '" +:+ offile +:+ "'";
             "INTER = 3"; "F_FORMAT = 1"; "F_ACCESS = 1"; "/" ]%string.
    apply lines_unlines.
    repeat (constructor; [first [reflexivity
                                | rewrite !lacks_app, ?Hs, ?Hp, ?Ho; reflexivity] |]).
    constructor.
Qed.

Lemma nml_defaults_eleven_lines_witness :
  ("run/input.nml"%string ∉ unwritable empty_world)
  ∧ (∃ w', write_input_nml_defaults library_missing "run" "in.ipf" "out.dat"
             (Some "lib/f_apsasGK.hdr"%string) empty_world = (w', Ok VNone)
     ∧ lines <$> files w' !! "run/input.nml"%string
       = Some [ "&LISTA"; "NDIM = 6"; "NOV = 0"; "INDV = 1 2 3 4 5 6";
                "SYNTHFILE(1) = 'lib/f_apsasGK.hdr'"; "PFILE = 'in.ipf'";
                "OFFILE = 'out.dat'";
                "INTER = 3"; "F_FORMAT = 1"; "F_ACCESS = 1"; "/" ]%string).
Proof.
  split; [apply not_elem_of_empty |].
  apply (nml_defaults_eleven_lines library_missing "run" "in.ipf" "out.dat"
           "lib/f_apsasGK.hdr" empty_world);
    [reflexivity | reflexivity | reflexivity | apply not_elem_of_empty].
Defined.

(** C1, as stated, fails: the file written with the defaults does not
    have nine lines (it has eleven). *)
Lemma nml_defaults_not_nine_lines :
  ∃ w', write_input_nml_defaults library_missing "run" "in.ipf" "out.dat"
          (Some "lib/f_apsasGK.hdr"%string) empty_world = (w', Ok VNone)
    ∧ length <$> (lines <$> files w' !! "run/input.nml"%string) = Some 11%nat
    ∧ length <$> (lines <$> files w' !! "run/input.nml"%string) ≠ Some 9%nat.
Proof.
  eexists. split; [vm_compute; reflexivity |].
  split; [vm_compute; reflexivity | vm_compute; discriminate].
Qed.

(** C7. The call [write_input_nml(dir, "in.ipf", "out.dat", ndim=6,
    nov=0)], the grid header coming from the package's default, writes
    a file whose fourth line, the first three being the open marker,
    NDIM and NOV, is exactly [INDV = 1 2 3 4 5 6]. *)
Theorem nml_indv_line (lib : bool → res string) (dir p : string) (w : world) :
  lib true = Ok p →
  path_join dir "input.nml" ∉ unwritable w →
  ∃ w' text,
    write_input_nml lib dir "in.ipf" "out.dat" 6 0 None 3 1 1 w = (w', Ok VNone)
    ∧ files w' !! path_join dir "input.nml" = Some text
    ∧ take 4 (lines text) = ["&LISTA"; "NDIM = 6"; "NOV = 0"; "INDV = 1 2 3 4 5 6"]%string.
Proof.
  intros Hp Hw. eexists _, _. split; [| split].
  - apply write_input_nml_spec with (s := p); [exact Hp | exact Hw].
  - cbn [files]. apply lookup_insert_eq.
  - unfold nml_lines.
    change (range 1 (6 + 1)) with [1; 2; 3; 4; 5; 6].
    change ("NDIM = " +:+ fmt_i 6) with "NDIM = 6"%string.
    change ("NOV = " +:+ fmt_i 0) with "NOV = 0"%string.
    change ("INDV =" +:+ foldr (λ ii acc, " " +:+ fmt_i ii +:+ acc) EmptyString
                            [1; 2; 3; 4; 5; 6])
      with "INDV = 1 2 3 4 5 6"%string.
    rewrite !unlines_cons.
    rewrite lines_cons by reflexivity. rewrite lines_cons by reflexivity.
    rewrite lines_cons by reflexivity. rewrite lines_cons by reflexivity.
    reflexivity.
Qed.

Lemma nml_indv_line_witness :
  library_found true = Ok "lib/f_apsasGK.hdr"%string
  ∧ ("run/input.nml"%string ∉ unwritable empty_world)
  ∧ (∃ w' text,
       write_input_nml library_found "run" "in.ipf" "out.dat" 6 0 None 3 1 1 empty_world
       = (w', Ok VNone)
       ∧ files w' !! "run/input.nml"%string = Some text
       ∧ take 4 (lines text)
         = ["&LISTA"; "NDIM = 6"; "NOV = 0"; "INDV = 1 2 3 4 5 6"]%string).
Proof.
  split; [reflexivity |]. split; [apply not_elem_of_empty |].
  apply (nml_indv_line library_found "run" "lib/f_apsasGK.hdr" empty_world);
    [reflexivity | apply not_elem_of_empty].
Defined.

(** C10. In the file written by [write_input_nml], the three
    string-valued directives carry their values between single quotes,
    the directive of the grid header has the key [SYNTHFILE(1)], and the
    numeric directives, NDIM, NOV, INDV, INTER, F_FORMAT and F_ACCESS,
    are written as bare decimal integers with no quote in them. *)
Theorem nml_quoting (lib : bool → res string) (dir pfile offile : string)
    (ndim nov : Z) (synthfile : option string) (inter f_format f_access : Z)
    (s : string) (w : world) :
  resolve_synthfile lib synthfile = Ok s →
  path_join dir "input.nml" ∉ unwritable w →
  ∃ w',
    write_input_nml lib dir pfile offile ndim nov synthfile inter f_format f_access w
    = (w', Ok VNone)
    ∧ files w' !! path_join dir "input.nml"
      = Some (unlines [ "&LISTA";
                        "NDIM = " +:+ fmt_i ndim;
                        "NOV = " +:+ fmt_i nov;
                        indvstr ndim;
                        "SYNTHFILE(1) = '" +:+ s +:+ "'";
                        "PFILE = '" +:+ pfile +:+ "'";
                        "OFFILE = '" +:+ offile +:+ "'";
                        "INTER = " +:+ fmt_i inter;
                        "F_FORMAT = " +:+ fmt_i f_format;
                        "F_ACCESS = " +:+ fmt_i f_access;
                        "/" ]%string)
    ∧ Forall (λ z, lacks "'" (fmt_i z) = true) [ndim; nov; inter; f_format; f_access]
    ∧ lacks "'" (indvstr ndim) = true.
Proof.
  intros Hs Hw. eexists. split; [| split; [| split]].
  - apply write_input_nml_spec with (s := s); [exact Hs | exact Hw].
  - cbn [files]. rewrite lookup_insert_eq. unfold nml_lines.
    now rewrite <- indvstr_eq.
  - repeat (constructor; [apply fmt_i_lacks; reflexivity |]). constructor.
  - rewrite indvstr_eq, lacks_app, indv_tail_lacks by reflexivity. reflexivity.
Qed.

Lemma nml_quoting_witness :
  resolve_synthfile library_found None = Ok "lib/f_apsasGK.hdr"%string
  ∧ ("run/input.nml"%string ∉ unwritable empty_world)
  ∧ (∃ w',
       write_input_nml library_found "run" "in.ipf" "out.dat" 7 0 None 3 1 0 empty_world
       = (w', Ok VNone)
       ∧ files w' !! "run/input.nml"%string
         = Some (unlines [ "&LISTA"; "NDIM = 7"; "NOV = 0"; "INDV = 1 2 3 4 5 6 7";
                           "SYNTHFILE(1) = 'lib/f_apsasGK.hdr'";
                           "PFILE = 'in.ipf'"; "OFFILE = 'out.dat'";
                           "INTER = 3"; "F_FORMAT = 1"; "F_ACCESS = 0"; "/" ]%string)
       ∧ Forall (λ z, lacks "'" (fmt_i z) = true) [7; 0; 3; 1; 0]
       ∧ lacks "'" (indvstr 7) = true).
Proof.
  split; [reflexivity |]. split; [apply not_elem_of_empty |].
  apply (nml_quoting library_found "run" "in.ipf" "out.dat" 7 0 None 3 1 0
           "lib/f_apsasGK.hdr" empty_world);
    [reflexivity | apply not_elem_of_empty].
Defined.

End NmlClaims.

(** ** The decorator *)

Section DecoratorFacts.

Lemma wrap_loop (args : list value) (n k : nat) (init : list value) :
  foldl (λ newargs ii,
           match args !! (ii + 1)%nat with
           | Some a => newargs ++ [np_array1 a]
           | None => newargs
           end) init (seq k n)
  = init ++ (np_array1 <$> take n (drop (k + 1) args)).
Proof.
  revert k init. induction n as [|n IH]; intros k init.
  - simpl. now rewrite app_nil_r.
  - cbn [seq foldl]. rewrite IH.
    destruct (args !! (k + 1)%nat) as [a|] eqn:E.
    + rewrite (drop_S _ _ _ E). cbn [take fmap list_fmap].
      now rewrite <- app_assoc.
    + apply lookup_ge_None in E.
      rewrite !drop_ge by lia. now rewrite !take_nil.
Qed.

(** Lines 15-18 keep the first argument and wrap each of the others. *)
Lemma wrap_args_cons (ctx : value) (rest : list value) :
  wrap_args (ctx :: rest) = ctx :: (np_array1 <$> rest).
Proof.
  unfold wrap_args. rewrite wrap_loop.
  change (take 1 (ctx :: rest)) with [ctx].
  change (drop (0 + 1) (ctx :: rest)) with rest.
  change (length (ctx :: rest) - 1)%nat with (length rest - 0)%nat.
  now rewrite Nat.sub_0_r, firstn_all.
Qed.

Lemma np_array1_scalars (l : list scalar) : np_array1 <$> (VSc <$> l) = one <$> l.
Proof. induction l as [|s l IH]; [reflexivity |]. cbn. now rewrite <- IH. Qed.

Lemma wrap_kwargs_with_vm (vm : option scalar) (kw : gmap string value) :
  wrap_kwargs (with_vm (VSc <$> vm) kw) = with_vm (wrapped_vm <$> vm) kw.
Proof.
  unfold wrap_kwargs, with_vm. destruct vm as [s|]; cbn.
  - rewrite lookup_insert_eq. destruct s; cbn; try reflexivity;
      now rewrite insert_insert_eq.
  - now rewrite lookup_delete_eq.
Qed.

(** Scalar mode: the wrapped function gets the wrapped arguments, and
    a result other than [None] loses its first axis. *)
Lemma scalar_mode_eq (func : callable) (args : list value)
    (kwargs : gmap string value) (a1 : value) (w : world) :
  args !! 1%nat = Some a1 →
  is_0d a1 = true →
  paramArrayInputDecorator func args kwargs w
  = (result ← func (wrap_args args) (wrap_kwargs kwargs);
     if is_none result then mret result else lift (getitem_0_all result)) w.
Proof.
  intros H1 E. unfold paramArrayInputDecorator, tuple_get. rewrite H1.
  rewrite lift_bind_ok. now rewrite E.
Qed.

(** Array mode: the decorated function is the wrapped function. *)
Lemma array_mode_eq (func : callable) (args : list value)
    (kwargs : gmap string value) (a1 : value) (w : world) :
  args !! 1%nat = Some a1 →
  is_0d a1 = false →
  paramArrayInputDecorator func args kwargs w = func args kwargs w.
Proof.
  intros H1 E. unfold paramArrayInputDecorator, tuple_get. rewrite H1.
  rewrite lift_bind_ok, E. unfold mbind, M_bind.
  destruct (func args kwargs w) as [w' [r|e]]; [| reflexivity].
  destruct (is_none r); reflexivity.
Qed.

End DecoratorFacts.

Section DecoratorClaims.

(** C2, as amended. For scalar parameters, and [vm] by keyword when
    given, the decorated function calls the wrapped one with a one-entry
    array for each parameter ([vm=None] staying [None]); if that call
    returns [None] the result is [None]; otherwise it is the first row
    [result[0,:]], which for a result of two or more dimensions is the
    result indexed at position 0. *)
Theorem decorator_scalar_mode (func : callable) (ctx : value)
    (t : scalar) (rest : list scalar) (vm : option scalar)
    (kw : gmap string value) (w : world) :
  paramArrayInputDecorator func (ctx :: VSc t :: (VSc <$> rest))
                           (with_vm (VSc <$> vm) kw) w
  = (result ← func (ctx :: one t :: (one <$> rest)) (with_vm (wrapped_vm <$> vm) kw);
     if is_none result then mret result else lift (getitem_0_all result)) w
  ∧ ∀ n m sh d,
      getitem_0_all (VArr (n :: m :: sh) d) = getitem (VArr (n :: m :: sh) d) 0.
Proof.
  split.
  - rewrite (scalar_mode_eq _ _ _ (VSc t)) by reflexivity.
    rewrite wrap_args_cons, wrap_kwargs_with_vm.
    cbn [fmap list_fmap np_array1]. now rewrite np_array1_scalars.
  - intros n m sh d. cbn. destruct (decide (0 < n)%nat); reflexivity.
Qed.

(** C2, as stated, fails on the one function the module decorates:
    called with scalars it returns [None], while the wrapped function
    called with one-entry arrays returns [None], which has no position 0. *)
Lemma decorator_scalar_none_not_indexed :
  write_interpolate_ipf log10_stub (ipf_args "run" (Scalars sun)) ∅ empty_world
  ≠ (result ← write_interpolate_ipf_wrapped log10_stub
                (VStr "run" :: (one <$> [SNum (teff sun); SNum (logg sun);
                                          SNum (metals sun); SNum (am sun);
                                          SNum (nm sun); SNum (cm sun)])) ∅;
     lift (getitem result 0)) empty_world.
Proof.
  intros H. apply (f_equal snd) in H. vm_compute in H. discriminate H.
Qed.

(** C6. When the second positional argument is not zero-dimensional,
    the decorated function is the wrapped function: same arguments in,
    same result, same effect, same exception out. *)
Theorem decorator_array_passthrough (func : callable) (args : list value)
    (kwargs : gmap string value) (a1 : value) (w : world) :
  args !! 1%nat = Some a1 →
  np_shape a1 ≠ [] →
  paramArrayInputDecorator func args kwargs w = func args kwargs w.
Proof.
  intros H1 Hsh. apply array_mode_eq with (a1 := a1); [exact H1 |].
  unfold is_0d. destruct (np_shape a1); congruence.
Qed.

Lemma decorator_array_passthrough_witness :
  [VStr "run"; arr1 [teff sun; teff sun]; arr1 [logg sun; logg sun]] !! 1%nat
    = Some (arr1 [teff sun; teff sun])
  ∧ np_shape (arr1 [teff sun; teff sun]) ≠ []
  ∧ paramArrayInputDecorator table_func
      [VStr "run"; arr1 [teff sun; teff sun]; arr1 [logg sun; logg sun]] ∅ empty_world
    = table_func [VStr "run"; arr1 [teff sun; teff sun]; arr1 [logg sun; logg sun]]
        ∅ empty_world.
Proof.
  split; [reflexivity |]. split; [discriminate |].
  apply (decorator_array_passthrough table_func _ ∅ (arr1 [teff sun; teff sun]) empty_world);
    [reflexivity | discriminate].
Defined.

(** C8. In either mode, when the wrapped function, called with the
    arguments the decorator hands it, returns [None], the decorated call
    returns [None] and leaves the store as the wrapped function left it;
    no row is taken. *)
Theorem decorator_none_propagates (func : callable) (args : list value)
    (kwargs : gmap string value) (a1 : value) (w w' : world) :
  args !! 1%nat = Some a1 →
  func (if is_0d a1 then wrap_args args else args)
       (if is_0d a1 then wrap_kwargs kwargs else kwargs) w = (w', Ok VNone) →
  paramArrayInputDecorator func args kwargs w = (w', Ok VNone).
Proof.
  intros H1 Hf. unfold paramArrayInputDecorator, tuple_get. rewrite H1.
  rewrite lift_bind_ok.
  destruct (is_0d a1); now rewrite (bind_ok _ _ _ _ _ Hf).
Qed.

Lemma decorator_none_propagates_witness :
  [VStr "run"; VNum (teff sun)] !! 1%nat = Some (VNum (teff sun))
  ∧ none_func (if is_0d (VNum (teff sun))
               then wrap_args [VStr "run"; VNum (teff sun)]
               else [VStr "run"; VNum (teff sun)])
              (if is_0d (VNum (teff sun)) then wrap_kwargs ∅ else ∅) empty_world
    = (empty_world, Ok VNone)
  ∧ paramArrayInputDecorator none_func [VStr "run"; VNum (teff sun)] ∅ empty_world
    = (empty_world, Ok VNone).
Proof.
  split; [reflexivity |]. split; [reflexivity |].
  apply (decorator_none_propagates none_func [VStr "run"; VNum (teff sun)] ∅
           (VNum (teff sun)) empty_world empty_world);
    reflexivity.
Defined.

End DecoratorClaims.

(** ** run_ferre *)

Section RunFerreClaims.

(** C4. [run_ferre] raises exactly when the program does not run to a
    zero exit status. If the program exits with another status the
    exception is a plain [Exception] whose message is built from the
    directory alone; if the program cannot be started the [OSError] of
    the launch comes through as it is; on a zero status the result is
    [None]. Two runs that differ only in the diagnostic text end the
    same way. *)
Theorem run_ferre_outcome
    (spawn : list string → string → world → world * launch)
    (dir : string) (verbose : bool) (w : world) :
  run_ferre spawn dir verbose w
  = match spawn ["ferre"%string] dir w with
    | (w', NotStarted reason) => (w', Raise (OSError reason))
    | (w', Exited status _ _) =>
        if status =? 0 then (w', Ok VNone)
        else (w', Raise (Exception ("Running FERRE instance in directory "
                                    +:+ dir +:+ " failed ...")))
    end
  ∧ ((∃ e, (run_ferre spawn dir verbose w).2 = Raise e)
     ↔ status_of (spawn ["ferre"%string] dir w).2 ≠ Exited 0 EmptyString EmptyString)
  ∧ ∀ spawn',
      (spawn' ["ferre"%string] dir w).1 = (spawn ["ferre"%string] dir w).1 →
      status_of (spawn' ["ferre"%string] dir w).2
      = status_of (spawn ["ferre"%string] dir w).2 →
      run_ferre spawn' dir verbose w = run_ferre spawn dir verbose w.
Proof.
  assert (E : ∀ sp, run_ferre sp dir verbose w
    = match sp ["ferre"%string] dir w with
      | (w', NotStarted reason) => (w', Raise (OSError reason))
      | (w', Exited status _ _) =>
          if status =? 0 then (w', Ok VNone)
          else (w', Raise (Exception ("Running FERRE instance in directory "
                                      +:+ dir +:+ " failed ...")))
      end).
  { intros sp. unfold run_ferre, try_except, check_call, mbind, M_bind.
    destruct verbose;
      (destruct (sp ["ferre"%string] dir w) as [w' [reason|status out err]];
       [reflexivity | destruct (status =? 0); reflexivity]). }
  split; [apply E |]. split.
  - rewrite E. destruct (spawn ["ferre"%string] dir w) as [w' [reason|status out err]];
      cbn [snd status_of].
    + split; [discriminate | eauto].
    + destruct (Z.eqb_spec status 0) as [->|Hne]; cbn [snd].
      * split; [intros [e He]; discriminate | congruence].
      * split; [intros _ H; inversion H; congruence | eauto].
  - intros spawn' Hw Hs. rewrite !E.
    destruct (spawn' ["ferre"%string] dir w) as [w1 l1],
             (spawn ["ferre"%string] dir w) as [w2 l2].
    cbn [fst snd] in Hw, Hs. subst w2.
    destruct l1, l2; cbn [status_of] in Hs; inversion Hs; reflexivity.
Qed.

Lemma run_ferre_outcome_witness :
  run_ferre (spawn_exits 1 "" "grid not found") "run" false empty_world
  = (empty_world, Raise (Exception "Running FERRE instance in directory run failed ..."))
  ∧ run_ferre (spawn_fails "ferre: not found") "run" false empty_world
    = (empty_world, Raise (OSError "ferre: not found"))
  ∧ run_ferre (spawn_exits 0 "done" "") "run" true empty_world
    = (empty_world, Ok VNone)
  ∧ run_ferre (spawn_exits 1 "" "grid not found") "run" false empty_world
    = run_ferre (spawn_exits 1 "" "") "run" false empty_world.
Proof.
  split; [exact (proj1 (run_ferre_outcome (spawn_exits 1 "" "grid not found")
                          "run" false empty_world)) |].
  split; [exact (proj1 (run_ferre_outcome (spawn_fails "ferre: not found")
                          "run" false empty_world)) |].
  split; [exact (proj1 (run_ferre_outcome (spawn_exits 0 "done" "")
                          "run" true empty_world)) |].
  apply (proj2 (proj2 (run_ferre_outcome (spawn_exits 1 "" "")
                         "run" false empty_world)));
    reflexivity.
Defined.

End RunFerreClaims.

(** ** Records and positions *)

Section RowFacts.

Lemma getitem_arr1 (l : list spec_float) (i : nat) :
  getitem (arr1 l) i
  = match l !! i with
    | Some x => Ok (VNp x)
    | None => Raise IndexError
    end.
Proof.
  unfold arr1, getitem. rewrite list_lookup_fmap.
  destruct (l !! i) as [x|] eqn:E; cbn.
  - apply lookup_lt_Some in E. now rewrite decide_True.
  - now destruct (decide (i < length l)%nat).
Qed.

(** A position has a record exactly when it is below the length of the
    shortest sequence. *)
Lemma row_at_is_Some (cs : columns) (i : nat) :
  is_Some (row_at cs i) ↔ (i < shortest cs)%nat.
Proof.
  unfold row_at, shortest, other_lengths, mbind, option_bind.
  assert (L : ∀ (l : list spec_float), is_Some (l !! i) ↔ (i < length l)%nat)
    by (intros l; apply lookup_lt_is_Some).
  destruct (c_vm cs) as [lv|]; cbn [fmap option_fmap option_map app foldr].
  - pose proof (L lv) as Hv. pose proof (L (c_cm cs)) as Hc.
    pose proof (L (c_nm cs)) as Hn. pose proof (L (c_am cs)) as Ha.
    pose proof (L (c_metals cs)) as Hm. pose proof (L (c_logg cs)) as Hg.
    pose proof (L (c_teff cs)) as Ht.
    destruct (lv !! i), (c_cm cs !! i), (c_nm cs !! i), (c_am cs !! i),
      (c_metals cs !! i), (c_logg cs !! i), (c_teff cs !! i);
      cbn [option_map]; rewrite ?is_Some_alt in *;
      (split; [intros H | intros H]); try tauto; try lia.
  - pose proof (L (c_cm cs)) as Hc.
    pose proof (L (c_nm cs)) as Hn. pose proof (L (c_am cs)) as Ha.
    pose proof (L (c_metals cs)) as Hm. pose proof (L (c_logg cs)) as Hg.
    pose proof (L (c_teff cs)) as Ht.
    destruct (c_cm cs !! i), (c_nm cs !! i), (c_am cs !! i),
      (c_metals cs !! i), (c_logg cs !! i), (c_teff cs !! i);
      rewrite ?is_Some_alt in *;
      (split; [intros H | intros H]); try tauto; try lia.
Qed.

Lemma shortest_le (cs : columns) : (shortest cs ≤ length (c_teff cs))%nat.
Proof. unfold shortest, other_lengths. destruct (c_vm cs); cbn [app foldr]; lia. Qed.

(** The records written are those at the positions from [k] on. *)
Lemma take_rows_lookup (cs : columns) (k n j : nat) (r : star) :
  take_rows cs (seq k n) !! j = Some r → row_at cs (k + j) = Some r.
Proof.
  revert k j. induction n as [|n IH]; intros k j; cbn [seq take_rows].
  - intros H. discriminate H.
  - destruct (row_at cs k) as [r0|] eqn:E; [| intros H; discriminate H].
    destruct j as [|j]; cbn.
    + intros [= <-]. now rewrite Nat.add_0_r.
    + intros H. apply IH in H. now rewrite Nat.add_succ_r.
Qed.

Lemma take_rows_length (cs : columns) (k n : nat) :
  length (take_rows cs (seq k n)) = Nat.min n (shortest cs - k).
Proof.
  revert k. induction n as [|n IH]; intros k; cbn [seq take_rows]; [reflexivity |].
  pose proof (row_at_is_Some cs k) as Hk.
  destruct (row_at cs k) as [r|].
  - assert (k < shortest cs)%nat by (apply Hk; eauto).
    cbn [length]. rewrite IH. lia.
  - assert (¬ (k < shortest cs)%nat) by (intros H; apply Hk in H as [? ?]; discriminate).
    cbn [length]. lia.
Qed.

Lemma complete_iff (cs : columns) (k n : nat) :
  complete cs (seq k n) = true ↔ (n = 0 ∨ k + n ≤ shortest cs)%nat.
Proof.
  revert k. induction n as [|n IH]; intros k; cbn [seq complete forallb].
  - split; [auto | reflexivity].
  - fold (complete cs (seq (S k) n)).
    rewrite andb_true_iff, bool_decide_eq_true, row_at_is_Some, IH. lia.
Qed.

Lemma bind_ipf_arrays (dir : string) (cs : columns) :
  bind_params ipf_params (ipf_args dir (Arrays cs)) (ipf_kwargs (Arrays cs))
  = Ok [VStr dir; arr1 (c_teff cs); arr1 (c_logg cs); arr1 (c_metals cs);
        arr1 (c_am cs); arr1 (c_nm cs); arr1 (c_cm cs); vm_value cs].
Proof.
  unfold ipf_args, ipf_kwargs, vm_value.
  generalize (arr1 (c_teff cs)), (arr1 (c_logg cs)), (arr1 (c_metals cs)),
    (arr1 (c_am cs)), (arr1 (c_nm cs)), (arr1 (c_cm cs)).
  intros t g m a n c.
  destruct (c_vm cs) as [lv|]; [generalize (arr1 lv); intros v |];
    vm_compute; reflexivity.
Qed.

Lemma row_at_no_vm (cs : columns) (i : nat) (r : star) :
  c_vm cs = None → row_at cs i = Some r → vm r = None.
Proof.
  unfold row_at, mbind, option_bind. intros ->.
  destruct (c_cm cs !! i), (c_nm cs !! i), (c_am cs !! i), (c_metals cs !! i),
    (c_logg cs !! i), (c_teff cs !! i); intros [= <-]; reflexivity.
Qed.

Lemma row_at_truncate (n : nat) (cs : columns) (i : nat) :
  (i < n)%nat → row_at (truncate n cs) i = row_at cs i.
Proof.
  intros Hi. unfold row_at, truncate. cbn [c_teff c_logg c_metals c_am c_nm c_cm c_vm].
  rewrite !lookup_take_lt by exact Hi.
  destruct (c_vm cs) as [lv|]; cbn [fmap option_fmap option_map]; [| reflexivity].
  now rewrite lookup_take_lt by exact Hi.
Qed.

Lemma take_rows_truncate (n : nat) (cs : columns) (k m : nat) :
  (k + m ≤ n)%nat →
  take_rows (truncate n cs) (seq k m) = take_rows cs (seq k m)
  ∧ complete (truncate n cs) (seq k m) = complete cs (seq k m).
Proof.
  revert k. induction m as [|m IH]; intros k Hk; [split; reflexivity |].
  cbn [seq take_rows complete forallb].
  rewrite (row_at_truncate n cs k) by lia.
  destruct (IH (S k)) as [-> E]; [lia |]. unfold complete in E. now rewrite E.
Qed.

Lemma min_covers (n : nat) (l : list nat) :
  (n ≤ foldr Nat.min n l)%nat ↔ Forall (λ k, n ≤ k)%nat l.
Proof.
  induction l as [|k l IH]; cbn [foldr].
  - split; [constructor | lia].
  - rewrite Forall_cons, <- IH. lia.
Qed.

Lemma min_falls_short (n : nat) (l : list nat) :
  (foldr Nat.min n l < n)%nat ↔ Exists (λ k, k < n)%nat l.
Proof.
  induction l as [|k l IH]; cbn [foldr].
  - split; [lia | intros H; inversion H].
  - rewrite Exists_cons, <- IH. lia.
Qed.

(** Every position below the shortest length has its record among
    those the loop gets through. *)
Lemma take_rows_lookup_lt (cs : columns) (n i : nat) :
  (i < Nat.min n (shortest cs))%nat →
  ∃ r, take_rows cs (seq 0 n) !! i = Some r ∧ row_at cs i = Some r.
Proof.
  intros Hi.
  destruct (lookup_lt_is_Some_2 (take_rows cs (seq 0 n)) i) as [r Hr].
  { rewrite take_rows_length. lia. }
  exists r. split; [exact Hr |]. now apply take_rows_lookup in Hr.
Qed.

Lemma complete_teff (cs : columns) :
  complete cs (seq 0 (length (c_teff cs)))
  = bool_decide (length (c_teff cs) ≤ shortest cs)%nat.
Proof.
  pose proof (complete_iff cs 0 (length (c_teff cs))) as Hc.
  pose proof (shortest_le cs) as Hle.
  destruct (complete cs _).
  - rewrite bool_decide_true; [reflexivity |].
    destruct Hc as [Hc _]. destruct (Hc eq_refl); lia.
  - rewrite bool_decide_false; [reflexivity |].
    intros H. destruct Hc as [_ Hc]. discriminate Hc. right. lia.
Qed.

End RowFacts.

(** ** write_interpolate_ipf *)

Section IpfFacts.

Import Text.

Variable log10 : spec_float → spec_float.

(** A record line, spelled out. *)
Lemma ipf_line_eq (r : star) :
  ipf_line log10 r
  = "dummy " +:+ match vm r with
                 | Some v => fmt_f 3 (log10 v) +:+ " "
                 | None => EmptyString
                 end
    +:+ fmt_f 3 (cm r) +:+ " " +:+ fmt_f 3 (nm r) +:+ " " +:+ fmt_f 3 (am r) +:+ " "
    +:+ fmt_f 3 (metals r) +:+ " " +:+ fmt_f 3 (logg r) +:+ " " +:+ fmt_f 1 (teff r).
Proof.
  unfold ipf_line, ipf_fields. destruct (vm r); cbn [foldr app];
    rewrite ?app_assoc_s, ?app_nil_r_s; reflexivity.
Qed.

(** One round of the loop: a line more, or an [IndexError] and the
    file as it was. *)
Lemma ipf_record_step (cs : columns) (f : handle) (i : nat) (txt : string)
    (m : gmap string string) u :
  ipf_record log10 f (arr1 (c_teff cs)) (arr1 (c_logg cs)) (arr1 (c_metals cs))
             (arr1 (c_am cs)) (arr1 (c_nm cs)) (arr1 (c_cm cs)) (vm_value cs) i
             (World (<[f := txt]> m) u)
  = match row_at cs i with
    | Some r => (World (<[f := txt +:+ ipf_line log10 r +:+ NL]> m) u, Ok tt)
    | None => (World (<[f := txt]> m) u, Raise IndexError)
    end.
Proof.
  unfold ipf_record, row_at, vm_value.
  destruct (c_vm cs) as [lv|];
    [change (is_none (arr1 lv)) with false | change (is_none VNone) with true];
    cbn iota; rewrite !getitem_arr1;
    unfold mbind, M_bind, option_bind, lift, mret, M_ret, option_ret, write;
    cbn [fmap option_fmap option_map].
  - destruct (lv !! i) as [v|]; [| reflexivity].
    destruct (c_cm cs !! i) as [c|]; [| reflexivity].
    destruct (c_nm cs !! i) as [n|]; [| reflexivity].
    destruct (c_am cs !! i) as [a|]; [| reflexivity].
    destruct (c_metals cs !! i) as [me|]; [| reflexivity].
    destruct (c_logg cs !! i) as [g|]; [| reflexivity].
    destruct (c_teff cs !! i) as [t|]; [| reflexivity].
    cbn [np_log10 scalar_log10 to_float files unwritable fmap option_fmap option_map].
    rewrite alter_insert_eq, ipf_line_eq. cbn [vm cm nm am metals logg teff].
    now rewrite !app_assoc_s.
  - destruct (c_cm cs !! i) as [c|]; [| reflexivity].
    destruct (c_nm cs !! i) as [n|]; [| reflexivity].
    destruct (c_am cs !! i) as [a|]; [| reflexivity].
    destruct (c_metals cs !! i) as [me|]; [| reflexivity].
    destruct (c_logg cs !! i) as [g|]; [| reflexivity].
    destruct (c_teff cs !! i) as [t|]; [| reflexivity].
    cbn [to_float files unwritable].
    rewrite alter_insert_eq, ipf_line_eq. cbn [vm cm nm am metals logg teff].
    now rewrite !app_assoc_s.
Qed.

(** The loop: the lines of the records it gets through, and an
    [IndexError] if it does not get through all. *)
Lemma for_each_records (cs : columns) (f : handle) (idx : list nat) (txt : string)
    (m : gmap string string) u :
  for_each idx
    (ipf_record log10 f (arr1 (c_teff cs)) (arr1 (c_logg cs)) (arr1 (c_metals cs))
                (arr1 (c_am cs)) (arr1 (c_nm cs)) (arr1 (c_cm cs)) (vm_value cs))
    (World (<[f := txt]> m) u)
  = (World (<[f := txt +:+ unlines (ipf_line log10 <$> take_rows cs idx)]> m) u,
     if complete cs idx then Ok tt else Raise IndexError).
Proof.
  revert txt. induction idx as [|i idx IH]; intros txt.
  - cbn. now rewrite app_nil_r_s.
  - cbn [for_each take_rows complete forallb].
    unfold mbind, M_bind. rewrite ipf_record_step.
    destruct (row_at cs i) as [r|] eqn:E.
    + rewrite IH. rewrite bool_decide_true by eauto.
      cbn [andb fmap list_fmap]. rewrite unlines_cons.
      now rewrite !app_assoc_s.
    + rewrite bool_decide_false by (intros [? ?]; discriminate).
      cbn. now rewrite app_nil_r_s.
Qed.

(** The function as written, on one-dimensional arrays: the file holds
    the lines of the records up to the shortest sequence; the call
    returns [None] if that covers the effective temperatures, and raises
    [IndexError] if not. *)
Lemma ipf_wrapped_spec (dir : string) (cs : columns) (w : world) :
  path_join dir "input.ipf" ∉ unwritable w →
  write_interpolate_ipf_wrapped log10 (ipf_args dir (Arrays cs)) (ipf_kwargs (Arrays cs)) w
  = (World (<[path_join dir "input.ipf" :=
               unlines (ipf_line log10 <$> take_rows cs (seq 0 (length (c_teff cs))))]>
             (files w)) (unwritable w),
     if complete cs (seq 0 (length (c_teff cs))) then Ok VNone else Raise IndexError).
Proof.
  intros Hw. unfold write_interpolate_ipf_wrapped.
  rewrite bind_ipf_arrays, lift_bind_ok. cbn [to_str]. rewrite lift_bind_ok.
  rewrite (bind_ok _ _ _ _ _ (open_w_ok _ _ Hw)).
  change (len (arr1 (c_teff cs))) with (@Ok nat (length (c_teff cs))).
  rewrite lift_bind_ok.
  unfold mbind at 1. unfold M_bind. rewrite for_each_records.
  destruct (complete cs _); reflexivity.
Qed.

(** The decorated function, called with scalars or with arrays. *)
Lemma ipf_spec (dir : string) (inp : ipf_input) (w : world) :
  path_join dir "input.ipf" ∉ unwritable w →
  write_interpolate_ipf log10 (ipf_args dir inp) (ipf_kwargs inp) w
  = (World (<[path_join dir "input.ipf" :=
               unlines (ipf_line log10 <$>
                          take_rows (ipf_columns inp)
                                    (seq 0 (length (c_teff (ipf_columns inp)))))]>
             (files w)) (unwritable w),
     if complete (ipf_columns inp) (seq 0 (length (c_teff (ipf_columns inp))))
     then Ok VNone else Raise IndexError).
Proof.
  intros Hw. unfold write_interpolate_ipf. destruct inp as [r|cs].
  - rewrite (scalar_mode_eq _ _ _ (VNum (teff r))) by reflexivity.
    assert (Ea : wrap_args (ipf_args dir (Scalars r))
                 = ipf_args dir (Arrays (ipf_columns (Scalars r))))
      by (unfold ipf_args at 1; now rewrite wrap_args_cons).
    assert (Ek : wrap_kwargs (ipf_kwargs (Scalars r))
                 = ipf_kwargs (Arrays (ipf_columns (Scalars r)))).
    { unfold wrap_kwargs, ipf_kwargs, ipf_columns. cbn [c_vm].
      destruct (vm r) as [v|].
      - rewrite lookup_singleton_eq. cbn [is_none]. now rewrite insert_singleton_eq.
      - now rewrite lookup_empty. }
    rewrite Ea, Ek. unfold mbind, M_bind. rewrite (ipf_wrapped_spec _ _ _ Hw).
    assert (Ec : complete (ipf_columns (Scalars r))
                   (seq 0 (length (c_teff (ipf_columns (Scalars r))))) = true)
      by (destruct r as [t g m a n c [v|]]; reflexivity).
    rewrite Ec. reflexivity.
  - rewrite (array_mode_eq _ _ _ (arr1 (c_teff cs))) by reflexivity.
    now apply ipf_wrapped_spec.
Qed.

Lemma fields_lack (c : ascii) (r : star) :
  float_char c = false → Forall (λ f, lacks c f = true) (ipf_fields log10 r).
Proof.
  intros Hc. unfold ipf_fields.
  destruct (vm r); repeat (constructor; [now apply fmt_f_lacks |]); constructor.
Qed.

Lemma joined_lacks (c : ascii) (word : string) (fields : list string) :
  Ascii.eqb " " c = false → lacks c word = true →
  Forall (λ f, lacks c f = true) fields →
  lacks c (word +:+ foldr (λ f acc, " " +:+ f +:+ acc) EmptyString fields) = true.
Proof.
  intros Hsp Hword Hf. rewrite lacks_app, Hword. cbn [andb].
  induction Hf as [|f fs Hl _ IH]; [reflexivity |].
  cbn [foldr]. rewrite !lacks_app, Hl, IH. cbn [lacks]. now rewrite Hsp.
Qed.

Lemma ipf_line_lacks_nl (r : star) : lacks nl (ipf_line log10 r) = true.
Proof.
  unfold ipf_line. apply joined_lacks; [reflexivity | reflexivity |].
  now apply fields_lack.
Qed.

(** Reading the record file back line by line. *)
Lemma lines_of_rows (rows : list star) :
  lines (unlines (ipf_line log10 <$> rows)) = ipf_line log10 <$> rows.
Proof.
  apply lines_unlines, Forall_fmap, Forall_forall.
  intros r _. apply ipf_line_lacks_nl.
Qed.

Lemma split_joined (word : string) (fields : list string) :
  lacks sp word = true → Forall (λ f, lacks sp f = true) fields →
  split_on sp (word +:+ foldr (λ f acc, " " +:+ f +:+ acc) EmptyString fields)
  = word :: fields.
Proof.
  intros Hword Hf. revert word Hword.
  induction Hf as [|f fs Hl _ IH]; intros word Hword.
  - cbn [foldr]. rewrite app_nil_r_s. now apply split_on_lacks.
  - cbn [foldr].
    change (word +:+ " " +:+ f +:+ foldr (λ f acc, " " +:+ f +:+ acc) EmptyString fs)
      with (word +:+ String sp (f +:+ foldr (λ f acc, " " +:+ f +:+ acc) EmptyString fs)).
    rewrite (split_on_app _ _ _ Hword). now rewrite (IH _ Hl).
Qed.

(** A record line splits at the spaces into the placeholder and the
    fields. *)
Lemma split_ipf_line (r : star) :
  split_on sp (ipf_line log10 r) = "dummy"%string :: ipf_fields log10 r.
Proof.
  unfold ipf_line. apply split_joined; [reflexivity |]. now apply fields_lack.
Qed.

(** The record file of a call, line by line: there is one line for
    each position every sequence has, line [i] is the record at position
    [i], and the call returns [None] exactly when that covers the
    effective temperatures. *)
Lemma ipf_lines_spec (dir : string) (inp : ipf_input) (w : world) :
  path_join dir "input.ipf" ∉ unwritable w →
  ∃ w' text,
    write_interpolate_ipf log10 (ipf_args dir inp) (ipf_kwargs inp) w
    = (w', if bool_decide (length (c_teff (ipf_columns inp)) ≤ shortest (ipf_columns inp))%nat
           then Ok VNone else Raise IndexError)
    ∧ files w' !! path_join dir "input.ipf" = Some text
    ∧ length (lines text) = shortest (ipf_columns inp)
    ∧ ∀ i, (i < shortest (ipf_columns inp))%nat →
        ∃ r, row_at (ipf_columns inp) i = Some r
             ∧ lines text !! i = Some (ipf_line log10 r).
Proof.
  intros Hw. eexists _, _. split; [| split; [| split]].
  - rewrite (ipf_spec dir inp w Hw). now rewrite complete_teff.
  - cbn [files]. apply lookup_insert_eq.
  - rewrite lines_of_rows, length_fmap, take_rows_length.
    pose proof (shortest_le (ipf_columns inp)). lia.
  - intros i Hi. rewrite lines_of_rows.
    destruct (take_rows_lookup_lt (ipf_columns inp)
                (length (c_teff (ipf_columns inp))) i) as (r & Hr & Hrow).
    { pose proof (shortest_le (ipf_columns inp)). lia. }
    exists r. split; [exact Hrow |]. now rewrite list_lookup_fmap, Hr.
Qed.

End IpfFacts.

Section IpfClaims.

Import Text.

(** C3. Whether the call is made with scalars or with arrays, and
    whether it ends normally or in an exception, every line of
    [<dir>/input.ipf] is the placeholder [dummy], then, when [vm] is
    given, the base-10 logarithm of the microturbulence in [%.3f] form,
    then carbon, nitrogen, alpha, metallicity and surface gravity in
    [%.3f] form and the effective temperature in [%.1f] form, one space
    between neighbours; line [i] is made from the entries at position
    [i], and there is one line for each position every sequence has. *)
Theorem ipf_record_lines (log10 : spec_float → spec_float) (dir : string)
    (inp : ipf_input) (w : world) :
  path_join dir "input.ipf" ∉ unwritable w →
  ∃ w' res text,
    write_interpolate_ipf log10 (ipf_args dir inp) (ipf_kwargs inp) w = (w', res)
    ∧ files w' !! path_join dir "input.ipf" = Some text
    ∧ length (lines text) = shortest (ipf_columns inp)
    ∧ ∀ i line, lines text !! i = Some line →
        ∃ r, row_at (ipf_columns inp) i = Some r
          ∧ line = "dummy "
                   +:+ match vm r with
                       | Some v => fmt_f 3 (log10 v) +:+ " "
                       | None => EmptyString
                       end
                   +:+ fmt_f 3 (cm r) +:+ " " +:+ fmt_f 3 (nm r) +:+ " "
                   +:+ fmt_f 3 (am r) +:+ " " +:+ fmt_f 3 (metals r) +:+ " "
                   +:+ fmt_f 3 (logg r) +:+ " " +:+ fmt_f 1 (teff r).
Proof.
  intros Hw. eexists _, _, _. split; [apply (ipf_spec log10 dir inp w Hw) |].
  cbn [files]. split; [apply lookup_insert_eq |].
  rewrite lines_of_rows. split.
  - rewrite length_fmap, take_rows_length.
    pose proof (shortest_le (ipf_columns inp)). lia.
  - intros i line Hl.
    apply list_lookup_fmap_Some in Hl as (r & -> & Hr).
    apply take_rows_lookup in Hr. exists r. split; [exact Hr |].
    apply ipf_line_eq.
Qed.

Lemma ipf_record_lines_witness :
  ("run/input.ipf"%string ∉ unwritable empty_world)
  ∧ (∃ w' res text,
       write_interpolate_ipf log10_stub (ipf_args "run" (Scalars sun_vm))
                             (ipf_kwargs (Scalars sun_vm)) empty_world = (w', res)
       ∧ files w' !! "run/input.ipf"%string = Some text
       ∧ length (lines text) = shortest (ipf_columns (Scalars sun_vm))
       ∧ ∀ i line, lines text !! i = Some line →
           ∃ r, row_at (ipf_columns (Scalars sun_vm)) i = Some r
             ∧ line = "dummy "
                      +:+ match vm r with
                          | Some v => fmt_f 3 (log10_stub v) +:+ " "
                          | None => EmptyString
                          end
                      +:+ fmt_f 3 (cm r) +:+ " " +:+ fmt_f 3 (nm r) +:+ " "
                      +:+ fmt_f 3 (am r) +:+ " " +:+ fmt_f 3 (metals r) +:+ " "
                      +:+ fmt_f 3 (logg r) +:+ " " +:+ fmt_f 1 (teff r)).
Proof.
  split; [apply not_elem_of_empty |].
  apply (ipf_record_lines log10_stub "run" (Scalars sun_vm) empty_world).
  apply not_elem_of_empty.
Defined.

(** C5. Without [vm], the record file has one line for each position
    every sequence has (one line for a scalar call), and each line splits
    at the spaces into exactly seven pieces: the placeholder, then the
    six parameters of that position, carbon, nitrogen, alpha, metallicity
    and surface gravity written by [%.3f] and the effective temperature
    by [%.1f]; for a finite parameter that is a decimal numeral with
    exactly three (one) fraction digits. *)
Theorem ipf_six_fields (log10 : spec_float → spec_float) (dir : string)
    (inp : ipf_input) (w : world) :
  has_vm inp = false →
  path_join dir "input.ipf" ∉ unwritable w →
  ∃ w' res text,
    write_interpolate_ipf log10 (ipf_args dir inp) (ipf_kwargs inp) w = (w', res)
    ∧ files w' !! path_join dir "input.ipf" = Some text
    ∧ length (lines text) = shortest (ipf_columns inp)
    ∧ (res = Ok VNone → length (lines text) = length (c_teff (ipf_columns inp)))
    ∧ ∀ i, (i < shortest (ipf_columns inp))%nat →
        ∃ r line f1 f2 f3 f4 f5 f6,
          row_at (ipf_columns inp) i = Some r
          ∧ lines text !! i = Some line
          ∧ split_on " " line = ["dummy"%string; f1; f2; f3; f4; f5; f6]
          ∧ written 3 (cm r) f1 ∧ written 3 (nm r) f2 ∧ written 3 (am r) f3
          ∧ written 3 (metals r) f4 ∧ written 3 (logg r) f5
          ∧ written 1 (teff r) f6.
Proof.
  intros Hvm Hw.
  destruct (ipf_lines_spec log10 dir inp w Hw) as (w' & text & Hcall & Hfile & Hlen & Hrows).
  eexists w', _, text. split; [exact Hcall |]. split; [exact Hfile |].
  split; [exact Hlen |]. split.
  - rewrite Hlen. pose proof (shortest_le (ipf_columns inp)).
    case_bool_decide; [intros _; lia | discriminate].
  - intros i Hi. destruct (Hrows i Hi) as (r & Hrow & Hline).
    assert (Hnone : vm r = None).
    { apply (row_at_no_vm (ipf_columns inp) i); [| exact Hrow].
      unfold has_vm in Hvm. destruct (c_vm (ipf_columns inp)); [discriminate | reflexivity]. }
    exists r, (ipf_line log10 r). eexists _, _, _, _, _, _.
    split; [exact Hrow |]. split; [exact Hline |]. split.
    + change " "%char with sp. rewrite split_ipf_line. unfold ipf_fields.
      rewrite Hnone. reflexivity.
    + repeat split; apply fmt_f_written.
Qed.

Lemma ipf_six_fields_witness :
  has_vm (Arrays two_stars) = false
  ∧ ("run/input.ipf"%string ∉ unwritable empty_world)
  ∧ (∃ w' res text,
       write_interpolate_ipf log10_stub (ipf_args "run" (Arrays two_stars))
                             (ipf_kwargs (Arrays two_stars)) empty_world = (w', res)
       ∧ files w' !! "run/input.ipf"%string = Some text
       ∧ length (lines text) = shortest (ipf_columns (Arrays two_stars))
       ∧ (res = Ok VNone
          → length (lines text) = length (c_teff (ipf_columns (Arrays two_stars))))
       ∧ ∀ i, (i < shortest (ipf_columns (Arrays two_stars)))%nat →
           ∃ r line f1 f2 f3 f4 f5 f6,
             row_at (ipf_columns (Arrays two_stars)) i = Some r
             ∧ lines text !! i = Some line
             ∧ split_on " " line = ["dummy"%string; f1; f2; f3; f4; f5; f6]
             ∧ written 3 (cm r) f1 ∧ written 3 (nm r) f2 ∧ written 3 (am r) f3
             ∧ written 3 (metals r) f4 ∧ written 3 (logg r) f5
             ∧ written 1 (teff r) f6).
Proof.
  split; [reflexivity |]. split; [apply not_elem_of_empty |].
  apply (ipf_six_fields log10_stub "run" (Arrays two_stars) empty_world);
    [reflexivity | apply not_elem_of_empty].
Defined.

(** C9, as amended. In array mode the number of lines written is the
    length of the shortest sequence. The call returns normally exactly
    when no later sequence is shorter than the effective temperatures,
    and then the file has exactly as many lines as there are effective
    temperatures; it raises [IndexError] exactly when some later
    sequence is shorter, and then the file is left with fewer lines, those
    of the positions before the failing one; and entries beyond the
    length of the effective temperatures change nothing: cutting every
    later sequence to that length gives the same file and the same
    outcome. *)
Theorem ipf_line_count (log10 : spec_float → spec_float) (dir : string)
    (cs : columns) (w : world) :
  path_join dir "input.ipf" ∉ unwritable w →
  ∃ w' res text,
    write_interpolate_ipf log10 (ipf_args dir (Arrays cs)) (ipf_kwargs (Arrays cs)) w
    = (w', res)
    ∧ files w' !! path_join dir "input.ipf" = Some text
    ∧ length (lines text) = foldr Nat.min (length (c_teff cs)) (other_lengths cs)
    ∧ (res = Ok VNone ↔ Forall (λ k, length (c_teff cs) ≤ k)%nat (other_lengths cs))
    ∧ (res = Raise IndexError ↔ Exists (λ k, k < length (c_teff cs))%nat (other_lengths cs))
    ∧ (res = Ok VNone → length (lines text) = length (c_teff cs))
    ∧ (res = Raise IndexError → (length (lines text) < length (c_teff cs))%nat)
    ∧ write_interpolate_ipf log10
        (ipf_args dir (Arrays (truncate (length (c_teff cs)) cs)))
        (ipf_kwargs (Arrays (truncate (length (c_teff cs)) cs))) w
      = (w', res).
Proof.
  intros Hw. set (n := length (c_teff cs)).
  pose proof (shortest_le cs) as Hle. fold n in Hle.
  destruct (ipf_lines_spec log10 dir (Arrays cs) w Hw)
    as (w' & text & Hcall & Hfile & Hlen & _).
  cbn [ipf_columns] in Hcall, Hlen. fold n in Hcall.
  eexists w', _, text. split; [exact Hcall |]. split; [exact Hfile |].
  split; [exact Hlen |].
  rewrite <- min_covers, <- min_falls_short.
  change (foldr Nat.min n (other_lengths cs)) with (shortest cs).
  rewrite Hlen.
  split; [| split; [| split; [| split]]].
  - case_bool_decide; split; try discriminate; intros; try reflexivity; lia.
  - case_bool_decide; split; try discriminate; intros; try reflexivity; lia.
  - case_bool_decide; [intros _; lia | discriminate].
  - case_bool_decide; [discriminate | intros _; lia].
  - rewrite <- Hcall.
    rewrite (ipf_spec log10 dir (Arrays (truncate n cs)) w Hw).
    rewrite (ipf_spec log10 dir (Arrays cs) w Hw).
    cbn [ipf_columns]. change (c_teff (truncate n cs)) with (c_teff cs). fold n.
    destruct (take_rows_truncate n cs 0 n) as [-> ->]; [lia |]. reflexivity.
Qed.

Lemma ipf_line_count_witness :
  ("run/input.ipf"%string ∉ unwritable empty_world)
  ∧ (∃ w' res text,
       write_interpolate_ipf log10_stub (ipf_args "run" (Arrays short_carbon))
                             (ipf_kwargs (Arrays short_carbon)) empty_world
       = (w', res)
       ∧ files w' !! "run/input.ipf"%string = Some text
       ∧ length (lines text)
         = foldr Nat.min (length (c_teff short_carbon)) (other_lengths short_carbon)
       ∧ (res = Ok VNone
          ↔ Forall (λ k, length (c_teff short_carbon) ≤ k)%nat (other_lengths short_carbon))
       ∧ (res = Raise IndexError
          ↔ Exists (λ k, k < length (c_teff short_carbon))%nat (other_lengths short_carbon))
       ∧ (res = Ok VNone → length (lines text) = length (c_teff short_carbon))
       ∧ (res = Raise IndexError
          → (length (lines text) < length (c_teff short_carbon))%nat)
       ∧ write_interpolate_ipf log10_stub
           (ipf_args "run" (Arrays (truncate (length (c_teff short_carbon)) short_carbon)))
           (ipf_kwargs (Arrays (truncate (length (c_teff short_carbon)) short_carbon)))
           empty_world
         = (w', res)).
Proof.
  split; [apply not_elem_of_empty |].
  apply (ipf_line_count log10_stub "run" short_carbon empty_world).
  apply not_elem_of_empty.
Defined.

(** C9, as stated, fails: with two effective temperatures and a carbon
    sequence of one entry the call is in array mode and the file is left
    with one line, not two. *)
Lemma ipf_short_carbon_one_line :
  ∃ w' text,
    write_interpolate_ipf log10_stub (ipf_args "run" (Arrays short_carbon))
                          (ipf_kwargs (Arrays short_carbon)) empty_world
    = (w', Raise IndexError)
    ∧ files w' !! "run/input.ipf"%string = Some text
    ∧ length (lines text) = 1%nat
    ∧ length (c_teff short_carbon) = 2%nat
    ∧ length (lines text) ≠ length (c_teff short_carbon).
Proof.
  eexists _, _. split; [vm_compute; reflexivity |].
  split; [vm_compute; reflexivity |].
  split; [vm_compute; reflexivity |].
  split; [reflexivity | vm_compute; discriminate].
Qed.

End IpfClaims.

(** ** More on the configuration file *)

Section NmlMore.

Import Text.

Lemma range_length (lo hi : Z) : length (range lo hi) = Z.to_nat (hi - lo).
Proof. unfold range. now rewrite length_fmap, length_seq. Qed.

Lemma range_lookup (lo hi : Z) (k : nat) :
  (k < Z.to_nat (hi - lo))%nat → range lo hi !! k = Some (lo + Z.of_nat k).
Proof.
  intros Hk. unfold range. rewrite list_lookup_fmap, lookup_seq_lt by exact Hk.
  reflexivity.
Qed.

Lemma indv_tail_fmap (l : list Z) :
  foldr (λ ii acc, " " +:+ fmt_i ii +:+ acc) EmptyString l
  = foldr (λ f acc, " " +:+ f +:+ acc) EmptyString (fmt_i <$> l).
Proof. induction l as [|x l IH]; [reflexivity |]. cbn [fmap list_fmap foldr]. now rewrite IH. Qed.

(** X1. The index list of lines 94-96, for any [ndim]: split at the spaces
    the INDV line is [INDV], [=], and then the decimal numerals of
    1, 2, ..., [ndim] in increasing order; there are [ndim] of them, and
    none when [ndim] is zero or negative. *)
Theorem indvstr_fields (ndim : Z) :
  split_on " " (indvstr ndim)
  = "INDV"%string :: "="%string :: (fmt_i <$> range 1 (ndim + 1))
  ∧ length (range 1 (ndim + 1)) = Z.to_nat ndim
  ∧ ∀ k, (k < Z.to_nat ndim)%nat → range 1 (ndim + 1) !! k = Some (Z.of_nat k + 1).
Proof.
  split; [| split].
  - rewrite indvstr_eq, indv_tail_fmap.
    change ("INDV =" +:+ foldr (λ f acc, " " +:+ f +:+ acc) EmptyString
                          (fmt_i <$> range 1 (ndim + 1)))
      with ("INDV" +:+ foldr (λ f acc, " " +:+ f +:+ acc) EmptyString
                         ("="%string :: (fmt_i <$> range 1 (ndim + 1)))).
    change " "%char with sp. apply split_joined; [reflexivity |].
    constructor; [reflexivity |].
    apply Forall_fmap, Forall_forall. intros z _. now apply fmt_i_lacks.
  - rewrite range_length. f_equal. lia.
  - intros k Hk. rewrite range_lookup by (replace (ndim + 1 - 1) with ndim by lia; exact Hk).
    f_equal. lia.
Qed.

Lemma nml_lines_lack_nl pfile offile ndim nov (s : string) inter f_format f_access :
  lacks nl s = true → lacks nl pfile = true → lacks nl offile = true →
  Forall (λ l, lacks nl l = true)
         (nml_lines pfile offile ndim nov s inter f_format f_access).
Proof.
  intros Hs Hp Ho. unfold nml_lines.
  repeat (constructor;
          [first [reflexivity
                 | rewrite !lacks_app, ?Hs, ?Hp, ?Ho, ?fmt_i_lacks, ?indv_tail_lacks
                     by reflexivity; reflexivity] |]).
  constructor.
Qed.

(** X2. Whatever the numeric options, a zero or negative [ndim] included,
    the file has exactly eleven lines: the index list never spills over
    its line and no directive is left out. *)
Theorem nml_eleven_lines_any_options (lib : bool → res string)
    (dir pfile offile : string) (ndim nov : Z) (synthfile : option string)
    (inter f_format f_access : Z) (s : string) (w : world) :
  resolve_synthfile lib synthfile = Ok s →
  lacks nl s = true → lacks nl pfile = true → lacks nl offile = true →
  path_join dir "input.nml" ∉ unwritable w →
  ∃ w' text,
    write_input_nml lib dir pfile offile ndim nov synthfile inter f_format f_access w
    = (w', Ok VNone)
    ∧ files w' !! path_join dir "input.nml" = Some text
    ∧ length (lines text) = 11%nat
    ∧ lines text !! 3%nat = Some (indvstr ndim)
    ∧ unlines (lines text) = text.
Proof.
  intros Hr Hs Hp Ho Hw. eexists _, _. split; [| split].
  - apply write_input_nml_spec with (s := s); [exact Hr | exact Hw].
  - cbn [files]. apply lookup_insert_eq.
  - rewrite lines_unlines by now apply nml_lines_lack_nl.
    split; [reflexivity |]. split; [| reflexivity].
    unfold nml_lines. cbn [lookup list_lookup]. now rewrite indvstr_eq.
Qed.

Lemma nml_eleven_lines_any_options_witness :
  resolve_synthfile library_found None = Ok "lib/f_apsasGK.hdr"%string
  ∧ lacks nl "lib/f_apsasGK.hdr" = true ∧ lacks nl "in.ipf" = true
  ∧ lacks nl "out.dat" = true
  ∧ ("run/input.nml"%string ∉ unwritable empty_world)
  ∧ (∃ w' text,
       write_input_nml library_found "run" "in.ipf" "out.dat" (-2) 0 None 3 1 1 empty_world
       = (w', Ok VNone)
       ∧ files w' !! "run/input.nml"%string = Some text
       ∧ length (lines text) = 11%nat
       ∧ lines text !! 3%nat = Some (indvstr (-2))
       ∧ unlines (lines text) = text).
Proof.
  do 4 (split; [reflexivity |]). split; [apply not_elem_of_empty |].
  apply (nml_eleven_lines_any_options library_found "run" "in.ipf" "out.dat" (-2) 0 None
           3 1 1 "lib/f_apsasGK.hdr" empty_world);
    [reflexivity | reflexivity | reflexivity | reflexivity | apply not_elem_of_empty].
Defined.

Lemma nml_lookup_raises (lib : bool → res string) dir pfile offile ndim nov synthfile
    inter f_format f_access (e : exn) (w : world) :
  resolve_synthfile lib synthfile = Raise e →
  write_input_nml lib dir pfile offile ndim nov synthfile inter f_format f_access w
  = (w, Raise e).
Proof.
  intros Hr. unfold write_input_nml.
  apply bind_raise. destruct synthfile; simpl in Hr; [discriminate |].
  unfold lift. now rewrite Hr.
Qed.

(** X3. The default grid header is looked up before the file is opened
    (lines 87-90): when no [synthfile] is given and the lookup raises,
    the exception comes through unchanged and nothing is created or
    emptied, whether or not the file could have been opened. *)
Theorem nml_lookup_failure_writes_nothing (lib : bool → res string)
    (dir pfile offile : string) (ndim nov inter f_format f_access : Z)
    (e : exn) (w : world) :
  lib true = Raise e →
  write_input_nml lib dir pfile offile ndim nov None inter f_format f_access w
  = (w, Raise e).
Proof. intros H. now apply nml_lookup_raises. Qed.

Lemma nml_lookup_failure_writes_nothing_witness :
  library_missing true = Raise (OSError "no library")
  ∧ write_input_nml library_missing "run" "in.ipf" "out.dat" 6 0 None 3 1 1 empty_world
    = (empty_world, Raise (OSError "no library")).
Proof.
  split; [reflexivity |].
  apply (nml_lookup_failure_writes_nothing library_missing "run" "in.ipf" "out.dat"
           6 0 3 1 1 (OSError "no library") empty_world).
  reflexivity.
Defined.



(** X5. A call touches one file only: whatever the outcome, every other
    file of the store is as it was. *)
Theorem nml_touches_one_file (lib : bool → res string)
    (dir pfile offile : string) (ndim nov : Z) (synthfile : option string)
    (inter f_format f_access : Z) (w : world) (other : string) :
  other ≠ path_join dir "input.nml" →
  files (write_input_nml lib dir pfile offile ndim nov synthfile
                         inter f_format f_access w).1 !! other
  = files w !! other.
Proof.
  intros Hne.
  destruct (resolve_synthfile lib synthfile) as [s|e] eqn:Hr.
  - destruct (decide (path_join dir "input.nml" ∈ unwritable w)) as [Hw|Hw].
    + now rewrite (write_input_nml_refused lib _ _ _ _ _ _ _ _ _ s).
    + rewrite (write_input_nml_spec lib _ _ _ _ _ _ _ _ _ s) by assumption.
      cbn [fst files]. now rewrite lookup_insert_ne.
  - now rewrite (nml_lookup_raises lib _ _ _ _ _ _ _ _ _ e).
Qed.

Lemma nml_touches_one_file_witness :
  "run/input.ipf"%string ≠ path_join "run" "input.nml"
  ∧ files (write_input_nml library_found "run" "in.ipf" "out.dat" 6 0 None 3 1 1
             (World {[ "run/input.ipf"%string := "dummy"%string ]} ∅)).1
      !! "run/input.ipf"%string
    = files (World {[ "run/input.ipf"%string := "dummy"%string ]} ∅)
      !! "run/input.ipf"%string.
Proof.
  split; [discriminate |].
  apply (nml_touches_one_file library_found "run" "in.ipf" "out.dat" 6 0 None 3 1 1
           (World {[ "run/input.ipf"%string := "dummy"%string ]} ∅) "run/input.ipf").
  discriminate.
Defined.

(** [%i] loses nothing: the text read back as a decimal integer is the
    integer written. *)
Lemma fmt_i_read (z : Z) : Z.of_int <$> NilZero.int_of_string (fmt_i z) = Some z.
Proof.
  unfold fmt_i. rewrite NilZero.isi.
  - cbn. now rewrite DecimalZ.of_to.
  - destruct z; cbn; try discriminate.
    intros [= H]. now apply DecimalPos.Unsigned.to_uint_nonnil in H.
  - destruct z; cbn; try discriminate.
    intros [= H]. now apply DecimalPos.Unsigned.to_uint_nonnil in H.
Qed.

Lemma fmt_i_inj (z z' : Z) : fmt_i z = fmt_i z' → z = z'.
Proof.
  intros H. pose proof (fmt_i_read z) as Hz. rewrite H, fmt_i_read in Hz.
  now inversion Hz.
Qed.

Lemma app_inj_r (a b c : string) : a +:+ c = b +:+ c → a = b.
Proof.
  revert b. induction a as [|x a IH]; intros [|y b] H.
  - reflexivity.
  - apply (f_equal String.length) in H. rewrite !length_app_s in H. cbn in H. lia.
  - apply (f_equal String.length) in H. rewrite !length_app_s in H. cbn in H. lia.
  - change ((String x a) +:+ c) with (String x (a +:+ c)) in H.
    change ((String y b) +:+ c) with (String y (b +:+ c)) in H.
    injection H as -> H. f_equal. now apply IH.
Qed.

(** X6. For integer values of the five numeric options, the file keeps
    every option apart: two calls that leave the same text in
    [<dir>/input.nml] were given the same file names, the same grid
    header and the same five integers. (A float option is outside this:
    [%i] drops its fraction.) *)
Theorem nml_determines_options (lib : bool → res string) (dir : string) (w : world)
    (pfile offile : string) (ndim nov : Z) (synthfile : option string)
    (inter f_format f_access : Z) (s : string)
    (pfile' offile' : string) (ndim' nov' : Z) (synthfile' : option string)
    (inter' f_format' f_access' : Z) (s' : string) :
  resolve_synthfile lib synthfile = Ok s →
  resolve_synthfile lib synthfile' = Ok s' →
  lacks nl s = true → lacks nl pfile = true → lacks nl offile = true →
  lacks nl s' = true → lacks nl pfile' = true → lacks nl offile' = true →
  path_join dir "input.nml" ∉ unwritable w →
  files (write_input_nml lib dir pfile offile ndim nov synthfile
                         inter f_format f_access w).1 !! path_join dir "input.nml"
  = files (write_input_nml lib dir pfile' offile' ndim' nov' synthfile'
                           inter' f_format' f_access' w).1 !! path_join dir "input.nml" →
  pfile = pfile' ∧ offile = offile' ∧ ndim = ndim' ∧ nov = nov' ∧ s = s'
  ∧ inter = inter' ∧ f_format = f_format' ∧ f_access = f_access'.
Proof.
  intros Hr Hr' Hs Hp Ho Hs' Hp' Ho' Hw.
  rewrite (write_input_nml_spec lib _ _ _ _ _ _ _ _ _ s) by assumption.
  rewrite (write_input_nml_spec lib _ _ _ _ _ _ _ _ _ s') by assumption.
  cbn [fst files]. rewrite !lookup_insert_eq. intros H.
  apply (f_equal (fmap lines)) in H. cbn [fmap option_fmap option_map] in H.
  rewrite !lines_unlines in H by now apply nml_lines_lack_nl.
  unfold nml_lines in H.
  injection H as H1 H2 _ H4 H5 H6 H7 H8 H9.
  apply String.app_inj in H1, H2, H4, H5, H6, H7, H8, H9.
  apply fmt_i_inj in H1, H2, H7, H8, H9.
  apply app_inj_r in H4, H5, H6.
  now subst.
Qed.

Lemma nml_determines_options_witness :
  resolve_synthfile library_found None = Ok "lib/f_apsasGK.hdr"%string
  ∧ resolve_synthfile library_found (Some "lib/f_apsasGK.hdr"%string)
    = Ok "lib/f_apsasGK.hdr"%string
  ∧ lacks nl "lib/f_apsasGK.hdr" = true ∧ lacks nl "in.ipf" = true
  ∧ lacks nl "out.dat" = true
  ∧ ("run/input.nml"%string ∉ unwritable empty_world)
  ∧ files (write_input_nml library_found "run" "in.ipf" "out.dat" 6 0 None
             3 1 1 empty_world).1 !! "run/input.nml"%string
    = files (write_input_nml library_found "run" "in.ipf" "out.dat" 6 0
               (Some "lib/f_apsasGK.hdr"%string) 3 1 1 empty_world).1
      !! "run/input.nml"%string
  ∧ ("in.ipf"%string = "in.ipf"%string ∧ "out.dat"%string = "out.dat"%string
     ∧ 6 = 6 ∧ 0 = 0 ∧ "lib/f_apsasGK.hdr"%string = "lib/f_apsasGK.hdr"%string
     ∧ 3 = 3 ∧ 1 = 1 ∧ 1 = 1).
Proof.
  do 5 (split; [reflexivity |]). split; [apply not_elem_of_empty |].
  split; [reflexivity |].
  apply (nml_determines_options library_found "run" empty_world
           "in.ipf" "out.dat" 6 0 None 3 1 1 "lib/f_apsasGK.hdr"
           "in.ipf" "out.dat" 6 0 (Some "lib/f_apsasGK.hdr"%string) 3 1 1
           "lib/f_apsasGK.hdr");
    try reflexivity; apply not_elem_of_empty.
Defined.

End NmlMore.

(** ** More on the decorator *)

Section DecoratorMore.

(** X7. With fewer than two positional arguments, as when every parameter
    is given by keyword, line 13 fails on [args[1]]: the call raises
    [IndexError] and the wrapped function is not called at all. *)
Theorem decorator_needs_two_positionals (func : callable) (args : list value)
    (kwargs : gmap string value) (w : world) :
  (length args < 2)%nat →
  paramArrayInputDecorator func args kwargs w = (w, Raise IndexError).
Proof.
  intros Hlen. unfold paramArrayInputDecorator, tuple_get.
  rewrite (proj2 (lookup_ge_None args 1)) by lia. reflexivity.
Qed.

Lemma decorator_needs_two_positionals_witness :
  (length [VStr "run"] < 2)%nat
  ∧ paramArrayInputDecorator table_func [VStr "run"]
      {[ "teff"%string := VNum (teff sun) ]} empty_world
    = (empty_world, Raise IndexError).
Proof.
  split; [cbn; lia |].
  apply (decorator_needs_two_positionals table_func [VStr "run"]
           {[ "teff"%string := VNum (teff sun) ]} empty_world).
  cbn; lia.
Defined.

(** X8. An exception of the wrapped function comes through unchanged in
    either mode, with the store as the wrapped function left it. *)
Theorem decorator_exception_propagates (func : callable) (args : list value)
    (kwargs : gmap string value) (a1 : value) (e : exn) (w w' : world) :
  args !! 1%nat = Some a1 →
  func (if is_0d a1 then wrap_args args else args)
       (if is_0d a1 then wrap_kwargs kwargs else kwargs) w = (w', Raise e) →
  paramArrayInputDecorator func args kwargs w = (w', Raise e).
Proof.
  intros H1 Hf. unfold paramArrayInputDecorator, tuple_get. rewrite H1.
  rewrite lift_bind_ok.
  destruct (is_0d a1); now rewrite (bind_raise _ _ _ _ _ Hf).
Qed.

Lemma decorator_exception_propagates_witness :
  [VStr "run"; VNum (teff sun)] !! 1%nat = Some (VNum (teff sun))
  ∧ (λ _ _, raise TypeError : M value)
      (if is_0d (VNum (teff sun))
       then wrap_args [VStr "run"; VNum (teff sun)]
       else [VStr "run"; VNum (teff sun)])
      (if is_0d (VNum (teff sun)) then wrap_kwargs ∅ else ∅) empty_world
    = (empty_world, Raise TypeError)
  ∧ paramArrayInputDecorator (λ _ _, raise TypeError)
      [VStr "run"; VNum (teff sun)] ∅ empty_world
    = (empty_world, Raise TypeError).
Proof.
  split; [reflexivity |]. split; [reflexivity |].
  apply (decorator_exception_propagates (λ _ _, raise TypeError)
           [VStr "run"; VNum (teff sun)] ∅ (VNum (teff sun)) TypeError
           empty_world empty_world);
    reflexivity.
Defined.

Lemma np_array1_not_0d (a : value) : is_0d (np_array1 a) = false.
Proof. destruct a; reflexivity. Qed.

Lemma args_from_second (args : list value) (a1 : value) :
  args !! 1%nat = Some a1 → ∃ ctx rest, args = ctx :: a1 :: rest.
Proof.
  destruct args as [|ctx [|a rest]]; try discriminate.
  intros [= ->]. eauto.
Qed.

(** X9. Decorating twice is decorating once: in scalar mode the inner
    decorator is handed one-entry arrays and passes them through, so
    the arguments are wrapped once and the result loses one axis only. *)
Theorem decorator_idempotent (func : callable) (args : list value)
    (kwargs : gmap string value) (w : world) :
  paramArrayInputDecorator (paramArrayInputDecorator func) args kwargs w
  = paramArrayInputDecorator func args kwargs w.
Proof.
  destruct (args !! 1%nat) as [a1|] eqn:H1.
  - destruct (is_0d a1) eqn:E.
    + rewrite !(scalar_mode_eq _ _ _ a1) by assumption.
      destruct (args_from_second _ _ H1) as (ctx & rest & ->).
      unfold mbind, M_bind.
      rewrite (array_mode_eq func _ _ (np_array1 a1)).
      * reflexivity.
      * now rewrite wrap_args_cons.
      * apply np_array1_not_0d.
    + now rewrite !(array_mode_eq _ _ _ a1) by assumption.
  - unfold paramArrayInputDecorator, tuple_get. now rewrite H1.
Qed.

(** X10. In scalar mode a result that is an array of fewer than two
    dimensions, or one with an empty first axis, cannot give up a row:
    the call raises [IndexError], after the wrapped function has had its
    effects. *)
Theorem decorator_scalar_flat_result (func : callable) (args : list value)
    (kwargs : gmap string value) (a1 : value) (sh : list nat) (d : list scalar)
    (w w' : world) :
  args !! 1%nat = Some a1 →
  is_0d a1 = true →
  func (wrap_args args) (wrap_kwargs kwargs) w = (w', Ok (VArr sh d)) →
  (length sh < 2)%nat ∨ sh !! 0%nat = Some 0%nat →
  paramArrayInputDecorator func args kwargs w = (w', Raise IndexError).
Proof.
  intros H1 E Hf Hsh. rewrite (scalar_mode_eq _ _ _ a1) by assumption.
  rewrite (bind_ok _ _ _ _ _ Hf). cbn [is_none].
  destruct sh as [|n [|m sh]]; try reflexivity.
  destruct Hsh as [Hlen|[= ->]]; [cbn in Hlen; lia | reflexivity].
Qed.

Lemma decorator_scalar_flat_result_witness :
  [VStr "run"; VNum (teff sun)] !! 1%nat = Some (VNum (teff sun))
  ∧ is_0d (VNum (teff sun)) = true
  ∧ (λ _ _, mret (arr1 [teff sun]) : M value)
      (wrap_args [VStr "run"; VNum (teff sun)]) (wrap_kwargs ∅) empty_world
    = (empty_world, Ok (VArr [1%nat] [SNp (teff sun)]))
  ∧ ((length [1%nat] < 2)%nat ∨ [1%nat] !! 0%nat = Some 0%nat)
  ∧ paramArrayInputDecorator (λ _ _, mret (arr1 [teff sun]))
      [VStr "run"; VNum (teff sun)] ∅ empty_world
    = (empty_world, Raise IndexError).
Proof.
  split; [reflexivity |]. split; [reflexivity |]. split; [reflexivity |].
  split; [left; cbn; lia |].
  apply (decorator_scalar_flat_result (λ _ _, mret (arr1 [teff sun]))
           [VStr "run"; VNum (teff sun)] ∅ (VNum (teff sun)) [1%nat] [SNp (teff sun)]
           empty_world empty_world);
    [reflexivity | reflexivity | reflexivity | left; cbn; lia].
Defined.

(** X11. The mode is chosen by the second argument alone. When that is a
    scalar, lines 15-18 keep the number of arguments and the first
    argument, and give every other argument, scalar or array, one more
    leading axis of length one, so that position 0 of the wrapped
    argument is the argument itself (a Python float comes back as the
    numpy float of the same value); lines 19-20 leave every keyword
    other than [vm] as it was. *)
Theorem decorator_wraps_each_argument (args : list value) (kwargs : gmap string value) :
  (0 < length args)%nat →
  length (wrap_args args) = length args
  ∧ wrap_args args !! 0%nat = args !! 0%nat
  ∧ (∀ i a, (0 < i)%nat → args !! i = Some a →
       ∃ a', wrap_args args !! i = Some a'
             ∧ np_shape a' = 1%nat :: np_shape a
             ∧ (match a with
                | VSc _ => True
                | VArr sh d => sh ≠ [] ∧ length d = size_of sh
                end → getitem a' 0 = Ok (match a with
                                         | VSc s => VSc (cell s)
                                         | VArr _ _ => a
                                         end)))
  ∧ ∀ k, k ≠ "vm"%string → wrap_kwargs kwargs !! k = kwargs !! k.
Proof.
  intros Hlen. destruct args as [|ctx rest]; [cbn in Hlen; lia |].
  rewrite wrap_args_cons. split; [| split; [| split]].
  - cbn. now rewrite length_fmap.
  - reflexivity.
  - intros [|i] a Hi Ha; [lia |]. change (rest !! i = Some a) in Ha.
    exists (np_array1 a). split; [| split].
    + change ((np_array1 <$> rest) !! i = Some (np_array1 a)).
      now rewrite list_lookup_fmap, Ha.
    + destruct a; reflexivity.
    + destruct a as [s|[|n sh] d]; [reflexivity | intros [Hsh _]; congruence |].
      intros [_ Hd]. cbn [np_array1 getitem].
      rewrite decide_True by lia.
      change (drop (0 * size_of (n :: sh)) d) with d.
      now rewrite <- Hd, firstn_all.
  - intros k Hk. unfold wrap_kwargs.
    destruct (kwargs !! "vm"%string) as [v|]; [| reflexivity].
    destruct (is_none v); [reflexivity |]. now rewrite lookup_insert_ne.
Qed.

Lemma decorator_wraps_each_argument_witness :
  (0 < length [VStr "run"; VNum (teff sun); arr1 [logg sun; logg sun]])%nat
  ∧ (length (wrap_args [VStr "run"; VNum (teff sun); arr1 [logg sun; logg sun]])
     = length [VStr "run"; VNum (teff sun); arr1 [logg sun; logg sun]]
     ∧ wrap_args [VStr "run"; VNum (teff sun); arr1 [logg sun; logg sun]] !! 0%nat
       = [VStr "run"; VNum (teff sun); arr1 [logg sun; logg sun]] !! 0%nat
     ∧ (∀ i a, (0 < i)%nat →
          [VStr "run"; VNum (teff sun); arr1 [logg sun; logg sun]] !! i = Some a →
          ∃ a', wrap_args [VStr "run"; VNum (teff sun); arr1 [logg sun; logg sun]] !! i
                = Some a'
                ∧ np_shape a' = 1%nat :: np_shape a
                ∧ (match a with
                   | VSc _ => True
                   | VArr sh d => sh ≠ [] ∧ length d = size_of sh
                   end → getitem a' 0 = Ok (match a with
                                            | VSc s => VSc (cell s)
                                            | VArr _ _ => a
                                            end)))
     ∧ ∀ k, k ≠ "vm"%string →
         wrap_kwargs {[ "cm"%string := VNum (cm sun) ]} !! k
         = ({[ "cm"%string := VNum (cm sun) ]} : gmap string value) !! k).
Proof.
  split; [cbn; lia |].
  apply (decorator_wraps_each_argument
           [VStr "run"; VNum (teff sun); arr1 [logg sun; logg sun]]
           {[ "cm"%string := VNum (cm sun) ]}).
  cbn; lia.
Defined.

End DecoratorMore.

(** ** Batches of records *)

Section BatchFacts.

Lemma rectangular_inv (cs : columns) :
  rectangular cs →
  length (c_logg cs) = length (c_teff cs) ∧ length (c_metals cs) = length (c_teff cs)
  ∧ length (c_am cs) = length (c_teff cs) ∧ length (c_nm cs) = length (c_teff cs)
  ∧ length (c_cm cs) = length (c_teff cs)
  ∧ ∀ l, c_vm cs = Some l → length l = length (c_teff cs).
Proof.
  unfold rectangular, other_lengths. rewrite Forall_app, !Forall_cons.
  intros [(H1 & H2 & H3 & H4 & H5 & _) Hv]. repeat split; try assumption.
  intros l E. rewrite E in Hv. now apply Forall_cons in Hv as [Hv _].
Qed.

Lemma rectangular_shortest (cs : columns) :
  rectangular cs → shortest cs = length (c_teff cs).
Proof.
  unfold rectangular, shortest. generalize (length (c_teff cs)) as n.
  intros n H. induction H as [|k l -> _ IH]; cbn [foldr]; [reflexivity |].
  rewrite IH. lia.
Qed.

Lemma rectangular_complete (cs : columns) :
  rectangular cs → complete cs (seq 0 (length (c_teff cs))) = true.
Proof.
  intros H. apply complete_iff. right. rewrite (rectangular_shortest _ H). lia.
Qed.

Lemma row_at_append_l (cs cs' : columns) (i : nat) :
  rectangular cs → (is_Some (c_vm cs) ↔ is_Some (c_vm cs')) →
  (i < length (c_teff cs))%nat →
  row_at (append_columns cs cs') i = row_at cs i.
Proof.
  intros (H1 & H2 & H3 & H4 & H5 & Hv)%rectangular_inv Hp Hi.
  unfold row_at, append_columns. cbn [c_teff c_logg c_metals c_am c_nm c_cm c_vm].
  rewrite !lookup_app_l by lia.
  destruct (c_vm cs) as [l|] eqn:E, (c_vm cs') as [l'|] eqn:E'; try reflexivity.
  - now rewrite lookup_app_l by (rewrite (Hv l eq_refl); lia).
  - destruct Hp as [Hp _]. destruct Hp as [? ?]; [eauto | discriminate].
Qed.

Lemma row_at_append_r (cs cs' : columns) (j : nat) :
  rectangular cs → (is_Some (c_vm cs) ↔ is_Some (c_vm cs')) →
  row_at (append_columns cs cs') (length (c_teff cs) + j) = row_at cs' j.
Proof.
  intros (H1 & H2 & H3 & H4 & H5 & Hv)%rectangular_inv Hp.
  unfold row_at, append_columns. cbn [c_teff c_logg c_metals c_am c_nm c_cm c_vm].
  assert (L : ∀ l l' : list spec_float, length l = length (c_teff cs) →
              (l ++ l') !! (length (c_teff cs) + j)%nat = l' !! j).
  { intros l l' Hl. rewrite lookup_app_r by lia. f_equal. lia. }
  rewrite !L by (assumption || reflexivity).
  destruct (c_vm cs) as [l|] eqn:E, (c_vm cs') as [l'|] eqn:E'; try reflexivity.
  - now rewrite (L l l' (Hv l eq_refl)).
  - destruct Hp as [_ Hp]. destruct Hp as [? ?]; [eauto | discriminate].
Qed.

Lemma take_rows_shift (cs cs' : columns) (k k' m : nat) :
  (∀ j, (j < m)%nat → row_at cs (k + j) = row_at cs' (k' + j)) →
  take_rows cs (seq k m) = take_rows cs' (seq k' m)
  ∧ complete cs (seq k m) = complete cs' (seq k' m).
Proof.
  revert k k'. induction m as [|m IH]; intros k k' H; [split; reflexivity |].
  cbn [seq take_rows complete forallb].
  pose proof (H 0%nat ltac:(lia)) as H0. rewrite !Nat.add_0_r in H0. rewrite H0.
  destruct (IH (S k) (S k')) as [-> E].
  - intros j Hj. specialize (H (S j) ltac:(lia)).
    now rewrite !Nat.add_succ_r in H.
  - unfold complete in E. now rewrite E.
Qed.

Lemma take_rows_app (cs : columns) (idx idx' : list nat) :
  complete cs idx = true →
  take_rows cs (idx ++ idx') = take_rows cs idx ++ take_rows cs idx'
  ∧ complete cs (idx ++ idx') = complete cs idx'.
Proof.
  induction idx as [|i idx IH]; [split; reflexivity |].
  cbn [complete forallb]. intros [Hi Hc]%andb_true_iff.
  apply bool_decide_eq_true in Hi as [r Hr].
  cbn [app take_rows complete forallb]. rewrite Hr.
  destruct (IH Hc) as [-> E]. unfold complete in E. rewrite E.
  split; [reflexivity |]. rewrite bool_decide_true by eauto. reflexivity.
Qed.

End BatchFacts.

(** ** More on the record file *)

Section IpfMore.

Import Text.

Variable log10 : spec_float → spec_float.

(** A round of the loop writes its text, or raises before it writes. *)
Lemma ipf_record_pure (f : handle) (teff logg metals am nm cm vm : value)
    (ii : nat) (w : world) :
  ipf_record log10 f teff logg metals am nm cm vm ii w
  = match record_text log10 teff logg metals am nm cm vm ii with
    | Ok s => write f s w
    | Raise e => (w, Raise e)
    end.
Proof.
  unfold ipf_record, record_text, mbind, M_bind, res_bind, lift, mret, M_ret.
  destruct (is_none vm).
  - destruct (getitem cm ii) as [c|]; [| reflexivity].
    destruct (getitem nm ii) as [n|]; [| reflexivity].
    destruct (getitem am ii) as [a|]; [| reflexivity].
    destruct (getitem metals ii) as [m|]; [| reflexivity].
    destruct (getitem logg ii) as [g|]; [| reflexivity].
    destruct (getitem teff ii) as [t|]; [| reflexivity].
    destruct (to_float c); [| reflexivity]. destruct (to_float n); [| reflexivity].
    destruct (to_float a); [| reflexivity]. destruct (to_float m); [| reflexivity].
    destruct (to_float g); [| reflexivity]. destruct (to_float t); reflexivity.
  - destruct (getitem vm ii) as [v|]; [| reflexivity].
    destruct (np_log10 log10 v) as [l|]; [| reflexivity].
    destruct (to_float l) as [x|]; [| reflexivity].
    destruct (getitem cm ii) as [c|]; [| reflexivity].
    destruct (getitem nm ii) as [n|]; [| reflexivity].
    destruct (getitem am ii) as [a|]; [| reflexivity].
    destruct (getitem metals ii) as [m|]; [| reflexivity].
    destruct (getitem logg ii) as [g|]; [| reflexivity].
    destruct (getitem teff ii) as [t|]; [| reflexivity].
    destruct (to_float c); [| reflexivity]. destruct (to_float n); [| reflexivity].
    destruct (to_float a); [| reflexivity]. destruct (to_float m); [| reflexivity].
    destruct (to_float g); [| reflexivity]. destruct (to_float t); reflexivity.
Qed.

(** The function as written, once its parameters are bound: the file is
    opened, the length of [teff] taken, the rounds run. *)
Lemma ipf_wrapped_bound (args : list value) (kwargs : gmap string value)
    (d : string) (teff logg metals am nm cm vm : value) (w : world) :
  bind_params ipf_params args kwargs
  = Ok [VStr d; teff; logg; metals; am; nm; cm; vm] →
  write_interpolate_ipf_wrapped log10 args kwargs w
  = (outfile ← open_w (path_join d "input.ipf");
     n ← lift (len teff);
     for_each (seq 0 n) (ipf_record log10 outfile teff logg metals am nm cm vm) ;;
     mret VNone) w.
Proof.
  intros Hb. unfold write_interpolate_ipf_wrapped. rewrite Hb, lift_bind_ok.
  cbn [to_str]. now rewrite lift_bind_ok.
Qed.

(** What the wrapped function does depends on its arguments through
    the binding of its parameters only. *)
Lemma ipf_wrapped_ext (args args' : list value) (kwargs kwargs' : gmap string value)
    (w : world) :
  bind_params ipf_params args kwargs = bind_params ipf_params args' kwargs' →
  write_interpolate_ipf_wrapped log10 args kwargs w
  = write_interpolate_ipf_wrapped log10 args' kwargs' w.
Proof. intros H. unfold write_interpolate_ipf_wrapped. now rewrite H. Qed.

Lemma ipf_wrapped_returns_none (args : list value) (kwargs : gmap string value)
    (w w' : world) (r : value) :
  write_interpolate_ipf_wrapped log10 args kwargs w = (w', Ok r) → r = VNone.
Proof.
  unfold write_interpolate_ipf_wrapped, mbind, M_bind, lift, raise, mret, M_ret.
  destruct (bind_params ipf_params args kwargs) as [bound|]; [| discriminate].
  destruct bound as [|d [|t [|g [|m [|a [|n [|c [|v [|? ?]]]]]]]]]; try discriminate.
  destruct (to_str d); [| discriminate].
  destruct (open_w _ w) as [w1 [f|]]; [| discriminate].
  destruct (len t) as [k|]; [| discriminate].
  destruct (for_each _ _ w1) as [w2 [[]|]]; [| discriminate].
  now intros [= _ <-].
Qed.

(** The row selection of the decorator is never reached by this
    function: decorated, it is the function as written applied to the
    arguments the decorator hands it. *)
Lemma ipf_decorated_eq (args : list value) (kwargs : gmap string value)
    (a1 : value) (w : world) :
  args !! 1%nat = Some a1 →
  write_interpolate_ipf log10 args kwargs w
  = write_interpolate_ipf_wrapped log10
      (if is_0d a1 then wrap_args args else args)
      (if is_0d a1 then wrap_kwargs kwargs else kwargs) w.
Proof.
  intros H1. unfold write_interpolate_ipf. destruct (is_0d a1) eqn:E.
  - rewrite (scalar_mode_eq _ _ _ a1) by assumption. unfold mbind, M_bind.
    destruct (write_interpolate_ipf_wrapped log10 _ _ w) as [w' [r|e]] eqn:Hr;
      [| reflexivity].
    apply ipf_wrapped_returns_none in Hr as ->. reflexivity.
  - now rewrite (array_mode_eq _ _ _ a1) by assumption.
Qed.

(** X12. [write_interpolate_ipf] returns nothing but [None], whatever it is
    called with: decorated or not, a call that ends normally ends in the
    [return None] of line 139, and the decorator's row selection is
    never applied to it. *)
Theorem ipf_returns_none (args : list value) (kwargs : gmap string value)
    (w w' : world) (r : value) :
  write_interpolate_ipf log10 args kwargs w = (w', Ok r) → r = VNone.
Proof.
  destruct (args !! 1%nat) as [a1|] eqn:H1.
  - rewrite (ipf_decorated_eq _ _ a1) by assumption.
    apply ipf_wrapped_returns_none.
  - unfold write_interpolate_ipf, paramArrayInputDecorator, tuple_get.
    rewrite H1. discriminate.
Qed.

Lemma wrap_scalar_args (dir : string) (r : star) :
  wrap_args (ipf_args dir (Scalars r)) = ipf_args dir (Arrays (ipf_columns (Scalars r))).
Proof. unfold ipf_args at 1. now rewrite wrap_args_cons. Qed.

Lemma wrap_scalar_kwargs (r : star) :
  wrap_kwargs (ipf_kwargs (Scalars r)) = ipf_kwargs (Arrays (ipf_columns (Scalars r))).
Proof.
  unfold wrap_kwargs, ipf_kwargs, ipf_columns. cbn [c_vm].
  destruct (vm r) as [v|].
  - rewrite lookup_singleton_eq. cbn [is_none]. now rewrite insert_singleton_eq.
  - now rewrite lookup_empty.
Qed.

(** X13. Calling with scalars is calling with one-entry arrays: the same
    file, the same outcome, in every store (also one that refuses the
    file). *)
Theorem ipf_scalars_as_one_row (dir : string) (r : star) (w : world) :
  write_interpolate_ipf log10 (ipf_args dir (Scalars r)) (ipf_kwargs (Scalars r)) w
  = write_interpolate_ipf log10 (ipf_args dir (Arrays (ipf_columns (Scalars r))))
      (ipf_kwargs (Arrays (ipf_columns (Scalars r)))) w.
Proof.
  rewrite (ipf_decorated_eq _ _ (VNum (teff r))) by reflexivity.
  rewrite (ipf_decorated_eq (ipf_args dir (Arrays _)) _ (arr1 [teff r])) by reflexivity.
  cbn [is_0d np_shape arr1]. now rewrite wrap_scalar_args, wrap_scalar_kwargs.
Qed.

(** X14. [vm] may be given as the eighth positional argument or by keyword:
    when it is not [None] the two calls do the same, in scalar mode and
    in array mode, whatever the other arguments are. *)
Theorem ipf_vm_positional_or_keyword (d t g m a n c v : value) (w : world) :
  is_none v = false →
  write_interpolate_ipf log10 [d; t; g; m; a; n; c; v] ∅ w
  = write_interpolate_ipf log10 [d; t; g; m; a; n; c] {[ "vm"%string := v ]} w.
Proof.
  intros Hv.
  rewrite (ipf_decorated_eq [d; t; g; m; a; n; c; v] _ t) by reflexivity.
  rewrite (ipf_decorated_eq [d; t; g; m; a; n; c] _ t) by reflexivity.
  apply ipf_wrapped_ext. destruct (is_0d t).
  - rewrite !wrap_args_cons. unfold wrap_kwargs.
    rewrite lookup_empty, lookup_singleton_eq, Hv, insert_singleton_eq.
    cbn [fmap list_fmap].
    generalize (np_array1 t), (np_array1 g), (np_array1 m), (np_array1 a),
      (np_array1 n), (np_array1 c), (np_array1 v).
    intros; vm_compute; reflexivity.
  - vm_compute; reflexivity.
Qed.

(** X15. [vm=None] by keyword is [vm] left out. *)
Theorem ipf_vm_none_is_default (d t g m a n c : value) (w : world) :
  write_interpolate_ipf log10 [d; t; g; m; a; n; c] {[ "vm"%string := VNone ]} w
  = write_interpolate_ipf log10 [d; t; g; m; a; n; c] ∅ w.
Proof.
  rewrite !(ipf_decorated_eq [d; t; g; m; a; n; c] _ t) by reflexivity.
  apply ipf_wrapped_ext. destruct (is_0d t).
  - rewrite !wrap_args_cons. unfold wrap_kwargs.
    rewrite lookup_empty, lookup_singleton_eq. cbn [is_none fmap list_fmap].
    generalize (np_array1 t), (np_array1 g), (np_array1 m), (np_array1 a),
      (np_array1 n), (np_array1 c).
    intros; vm_compute; reflexivity.
  - vm_compute; reflexivity.
Qed.

Lemma ipf_first_round_raises (args : list value) (kwargs : gmap string value)
    (d : string) (teff logg metals am nm cm vm : value) (k : nat) (e : exn)
    (w : world) :
  bind_params ipf_params args kwargs
  = Ok [VStr d; teff; logg; metals; am; nm; cm; vm] →
  path_join d "input.ipf" ∉ unwritable w →
  len teff = Ok (S k) →
  record_text log10 teff logg metals am nm cm vm 0 = Raise e →
  write_interpolate_ipf_wrapped log10 args kwargs w
  = (World (<[path_join d "input.ipf" := EmptyString]> (files w)) (unwritable w),
     Raise e).
Proof.
  intros Hb Hw Hn Hr. rewrite (ipf_wrapped_bound _ _ _ _ _ _ _ _ _ _ _ Hb).
  rewrite (bind_ok _ _ _ _ _ (open_w_ok _ _ Hw)). rewrite Hn, lift_bind_ok.
  cbn [seq for_each]. unfold mbind at 1. unfold M_bind.
  unfold mbind at 1. unfold M_bind. now rewrite ipf_record_pure, Hr.
Qed.

(** X16. [None] given for [vm] as the eighth positional argument of a scalar
    call is wrapped like any other argument and no longer recognised as
    "no microturbulence": the file is created empty and the call raises
    [TypeError], where [vm=None] by keyword writes a six-field line. *)
Theorem ipf_positional_none_raises (dir : string) (r : star) (w : world) :
  path_join dir "input.ipf" ∉ unwritable w →
  write_interpolate_ipf log10 (ipf_args dir (Scalars r) ++ [VNone]) ∅ w
  = (World (<[path_join dir "input.ipf" := EmptyString]> (files w)) (unwritable w),
     Raise TypeError).
Proof.
  intros Hw. destruct r as [t g m a n c v]. cbn [ipf_args teff logg metals am nm cm app].
  rewrite (ipf_decorated_eq _ _ (VNum t)) by reflexivity.
  cbn [is_0d np_shape]. rewrite wrap_args_cons.
  apply (ipf_first_round_raises _ _ dir (one (SNum t)) (one (SNum g)) (one (SNum m))
           (one (SNum a)) (one (SNum n)) (one (SNum c)) (one SNone) 0);
    [vm_compute; reflexivity | exact Hw | reflexivity | vm_compute; reflexivity].
Qed.

(** X17. In scalar mode only positional arguments and [vm] are wrapped
    (lines 15-20): a scalar [cm] given by keyword reaches line 136 as a
    scalar and [cm[ii]] fails, with [TypeError] for a Python float and
    with [IndexError] for a numpy float; either way the file is left
    created and empty. *)
Theorem ipf_keyword_scalar_raises (dir : string) (t g m a n c : spec_float) (w : world) :
  path_join dir "input.ipf" ∉ unwritable w →
  write_interpolate_ipf log10 [VStr dir; VNum t; VNum g; VNum m; VNum a; VNum n]
                        {[ "cm"%string := VNum c ]} w
  = (World (<[path_join dir "input.ipf" := EmptyString]> (files w)) (unwritable w),
     Raise TypeError)
  ∧ write_interpolate_ipf log10 [VStr dir; VNum t; VNum g; VNum m; VNum a; VNum n]
                          {[ "cm"%string := VNp c ]} w
    = (World (<[path_join dir "input.ipf" := EmptyString]> (files w)) (unwritable w),
       Raise IndexError).
Proof.
  intros Hw.
  assert (H : ∀ (v : value) (e : exn),
             is_none v = false → getitem v 0 = Raise e →
             write_interpolate_ipf log10 [VStr dir; VNum t; VNum g; VNum m; VNum a; VNum n]
                                   {[ "cm"%string := v ]} w
             = (World (<[path_join dir "input.ipf" := EmptyString]> (files w))
                      (unwritable w), Raise e)).
  { intros v e Hv He.
    rewrite (ipf_decorated_eq _ _ (VNum t)) by reflexivity.
    cbn [is_0d np_shape]. rewrite wrap_args_cons.
    assert (Ek : wrap_kwargs {[ "cm"%string := v ]}
                 = ({[ "cm"%string := v ]} : gmap string value)).
    { unfold wrap_kwargs. now rewrite lookup_singleton_ne. }
    rewrite Ek.
    apply (ipf_first_round_raises _ _ dir (one (SNum t)) (one (SNum g)) (one (SNum m))
             (one (SNum a)) (one (SNum n)) v VNone 0);
      [vm_compute; reflexivity | exact Hw | reflexivity |].
    unfold record_text. cbn [is_none]. unfold mbind, res_bind. now rewrite He. }
  split; apply H; reflexivity.
Qed.

(** X18. A scalar temperature with an array for a later parameter puts the
    call in scalar mode; the array gets a leading axis, its row 0 is the
    whole array, and [%.3f] does not take an array of any length other
    than one: the call raises [TypeError] and leaves the file created and
    empty. *)
Theorem ipf_mixed_raises (dir : string) (t m a n c : spec_float)
    (l : list spec_float) (w : world) :
  length l ≠ 1%nat →
  path_join dir "input.ipf" ∉ unwritable w →
  write_interpolate_ipf log10
    [VStr dir; VNum t; arr1 l; VNum m; VNum a; VNum n; VNum c] ∅ w
  = (World (<[path_join dir "input.ipf" := EmptyString]> (files w)) (unwritable w),
     Raise TypeError).
Proof.
  intros Hl Hw.
  rewrite (ipf_decorated_eq _ _ (VNum t)) by reflexivity.
  cbn [is_0d np_shape]. rewrite wrap_args_cons. cbn [fmap list_fmap].
  change (wrap_kwargs ∅) with (∅ : gmap string value).
  apply (ipf_first_round_raises _ _ dir (one (SNum t)) (np_array1 (arr1 l))
           (one (SNum m)) (one (SNum a)) (one (SNum n)) (one (SNum c)) VNone 0);
    [generalize (np_array1 (arr1 l)); intros; vm_compute; reflexivity
    | exact Hw | reflexivity |].
  destruct l as [|x [|y l]]; [| cbn in Hl; congruence |]; vm_compute; reflexivity.
Qed.

Lemma bind_from_raises (ps : list (string * option value)) (xs : list value)
    (kw : gmap string value) (e : exn) :
  bind_from ps xs kw = Raise e → e = TypeError.
Proof.
  revert xs. induction ps as [|[name dflt] ps IH]; intros xs; cbn [bind_from].
  - destruct xs; [discriminate | now intros [= <-]].
  - destruct xs as [|x xs].
    + destruct (kw !! name) as [v|]; [| destruct dflt as [v|]; [| now intros [= <-]]];
        (destruct (bind_from ps [] kw) eqn:E; [discriminate |]; intros [= <-]; eauto).
    + destruct (kw !! name); [now intros [= <-] |].
      destruct (bind_from ps xs kw) eqn:E; [discriminate |]. intros [= <-]. eauto.
Qed.

Lemma bind_params_raises (ps : list (string * option value)) (xs : list value)
    (kw : gmap string value) (e : exn) :
  bind_params ps xs kw = Raise e → e = TypeError.
Proof.
  unfold bind_params. destruct (decide _); [apply bind_from_raises | now intros [= <-]].
Qed.

Lemma bind_params_head (name : string) (dflt : option value)
    (ps : list (string * option value)) (d : value) (xs : list value)
    (kw : gmap string value) (bound : list value) :
  bind_params ((name, dflt) :: ps) (d :: xs) kw = Ok bound → ∃ tl, bound = d :: tl.
Proof.
  unfold bind_params. destruct (decide _); [| discriminate]. cbn [bind_from].
  destruct (kw !! name); [discriminate |].
  destruct (bind_from ps xs kw); [| discriminate]. intros [= <-]. eauto.
Qed.

(** X19. With [None], a float of either kind or a numpy array as the
    directory, the call raises [TypeError] before a file is opened and
    the store is left as it was, whatever the other arguments and
    keywords are. (Values of other types, such as path objects, are not
    among the values modelled.) *)
Theorem ipf_bad_directory_raises (d a1 : value) (rest : list value)
    (kwargs : gmap string value) (w : world) :
  is_str d = false →
  write_interpolate_ipf log10 (d :: a1 :: rest) kwargs w = (w, Raise TypeError).
Proof.
  intros Hd. rewrite (ipf_decorated_eq _ _ a1) by reflexivity.
  assert (Hargs : ∃ xs, (if is_0d a1 then wrap_args (d :: a1 :: rest) else d :: a1 :: rest)
                        = d :: xs)
    by (destruct (is_0d a1); [rewrite wrap_args_cons |]; eauto).
  destruct Hargs as [xs ->].
  unfold write_interpolate_ipf_wrapped.
  destruct (bind_params ipf_params (d :: xs) _) as [bound|e] eqn:Hb.
  - apply bind_params_head in Hb as [tl ->]. rewrite lift_bind_ok.
    destruct tl as [|t [|g [|m [|a [|n [|c [|v [|? ?]]]]]]]]; try reflexivity.
    destruct d as [[| | |s]|]; try reflexivity. discriminate Hd.
  - apply bind_params_raises in Hb as ->. reflexivity.
Qed.

Lemma row_at_has_vm (cs : columns) (i : nat) (r : star) :
  is_Some (c_vm cs) → row_at cs i = Some r → is_Some (vm r).
Proof.
  unfold row_at, mbind, option_bind. intros [lv ->].
  cbn [fmap option_fmap option_map].
  destruct (lv !! i); [| discriminate].
  destruct (c_cm cs !! i), (c_nm cs !! i), (c_am cs !! i), (c_metals cs !! i),
    (c_logg cs !! i), (c_teff cs !! i); intros [= <-]; eauto.
Qed.

(** X20. With [vm], the record file has one line for each position every
    sequence has, and each line splits at the spaces into exactly eight
    pieces: the placeholder, the base-10 logarithm of the
    microturbulence written by [%.3f], and the six fields of the call
    without [vm]. A field is a decimal numeral with exactly three (for
    the temperature, one) fraction digits when the number written is
    finite; the logarithm of a zero microturbulence is not, and is
    written as the word the logarithm gives, such as [-inf]. *)
Theorem ipf_seven_fields (dir : string) (inp : ipf_input) (w : world) :
  has_vm inp = true →
  path_join dir "input.ipf" ∉ unwritable w →
  ∃ w' res text,
    write_interpolate_ipf log10 (ipf_args dir inp) (ipf_kwargs inp) w = (w', res)
    ∧ files w' !! path_join dir "input.ipf" = Some text
    ∧ length (lines text) = shortest (ipf_columns inp)
    ∧ ∀ i, (i < shortest (ipf_columns inp))%nat →
        ∃ r v line f0 f1 f2 f3 f4 f5 f6,
          row_at (ipf_columns inp) i = Some r
          ∧ vm r = Some v
          ∧ lines text !! i = Some line
          ∧ split_on " " line = ["dummy"%string; f0; f1; f2; f3; f4; f5; f6]
          ∧ written 3 (log10 v) f0
          ∧ written 3 (cm r) f1 ∧ written 3 (nm r) f2 ∧ written 3 (am r) f3
          ∧ written 3 (metals r) f4 ∧ written 3 (logg r) f5
          ∧ written 1 (teff r) f6.
Proof.
  intros Hvm Hw.
  destruct (ipf_lines_spec log10 dir inp w Hw) as (w' & text & Hcall & Hfile & Hlen & Hrows).
  eexists w', _, text. split; [exact Hcall |]. split; [exact Hfile |].
  split; [exact Hlen |].
  intros i Hi. destruct (Hrows i Hi) as (r & Hrow & Hline).
  assert (Hsome : is_Some (vm r)).
  { apply (row_at_has_vm (ipf_columns inp) i); [| exact Hrow].
    unfold has_vm in Hvm. destruct (c_vm (ipf_columns inp)); [eauto | discriminate]. }
  destruct Hsome as [v Hv].
  exists r, v, (ipf_line log10 r). eexists _, _, _, _, _, _, _.
  split; [exact Hrow |]. split; [exact Hv |]. split; [exact Hline |]. split.
  - change " "%char with sp. rewrite split_ipf_line. unfold ipf_fields.
    rewrite Hv. reflexivity.
  - repeat split; apply fmt_f_written.
Qed.

(** X21. No effective temperatures, no records: the file is created empty
    and the call returns [None], whatever the other sequences hold. *)
Theorem ipf_no_records (dir : string) (cs : columns) (w : world) :
  c_teff cs = [] →
  path_join dir "input.ipf" ∉ unwritable w →
  write_interpolate_ipf log10 (ipf_args dir (Arrays cs)) (ipf_kwargs (Arrays cs)) w
  = (World (<[path_join dir "input.ipf" := EmptyString]> (files w)) (unwritable w),
     Ok VNone).
Proof.
  intros Ht Hw. rewrite (ipf_spec log10 dir (Arrays cs) w Hw).
  cbn [ipf_columns]. now rewrite Ht.
Qed.

Lemma ipf_refused (dir : string) (inp : ipf_input) (w : world) :
  path_join dir "input.ipf" ∈ unwritable w →
  write_interpolate_ipf log10 (ipf_args dir inp) (ipf_kwargs inp) w
  = (w, Raise (OSError (path_join dir "input.ipf"))).
Proof.
  intros Hw.
  assert (H : ∀ cs, write_interpolate_ipf_wrapped log10 (ipf_args dir (Arrays cs))
                      (ipf_kwargs (Arrays cs)) w
                    = (w, Raise (OSError (path_join dir "input.ipf")))).
  { intros cs. rewrite (ipf_wrapped_bound _ _ _ _ _ _ _ _ _ _ _ (bind_ipf_arrays dir cs)).
    now rewrite (bind_raise _ _ _ _ _ (open_w_refused _ _ Hw)). }
  destruct inp as [r|cs].
  - rewrite (ipf_decorated_eq _ _ (VNum (teff r))) by reflexivity.
    cbn [is_0d np_shape]. rewrite wrap_scalar_args, wrap_scalar_kwargs. apply H.
  - rewrite (ipf_decorated_eq _ _ (arr1 (c_teff cs))) by reflexivity. apply H.
Qed.

(** X22. A call touches one file only: whatever the outcome, every file
    other than [<dir>/input.ipf] is as it was. *)
Theorem ipf_touches_one_file (dir : string) (inp : ipf_input) (w : world)
    (other : string) :
  other ≠ path_join dir "input.ipf" →
  files (write_interpolate_ipf log10 (ipf_args dir inp) (ipf_kwargs inp) w).1 !! other
  = files w !! other.
Proof.
  intros Hne. destruct (decide (path_join dir "input.ipf" ∈ unwritable w)) as [Hw|Hw].
  - now rewrite ipf_refused.
  - rewrite (ipf_spec log10 dir inp w Hw). cbn [fst files]. now rewrite lookup_insert_ne.
Qed.


Lemma ipf_text_append (cs cs' : columns) :
  rectangular cs → rectangular cs' →
  (is_Some (c_vm cs) ↔ is_Some (c_vm cs')) →
  ipf_text log10 (append_columns cs cs') = ipf_text log10 cs +:+ ipf_text log10 cs'
  ∧ complete (append_columns cs cs') (seq 0 (length (c_teff (append_columns cs cs'))))
    = true.
Proof.
  intros Hr Hr' Hp. unfold ipf_text.
  change (c_teff (append_columns cs cs')) with (c_teff cs ++ c_teff cs').
  rewrite length_app, seq_app. cbn [Nat.add].
  destruct (take_rows_shift (append_columns cs cs') cs 0 0 (length (c_teff cs)))
    as [E1 C1]; [intros j Hj; now apply row_at_append_l |].
  destruct (take_rows_shift (append_columns cs cs') cs' (length (c_teff cs)) 0
              (length (c_teff cs')))
    as [E2 C2]; [intros j Hj; now apply row_at_append_r |].
  destruct (take_rows_app (append_columns cs cs') (seq 0 (length (c_teff cs)))
              (seq (length (c_teff cs)) (length (c_teff cs'))))
    as [E3 C3]; [rewrite C1; now apply rectangular_complete |].
  rewrite E3, C3, E1, E2, C2, fmap_app, unlines_app.
  split; [reflexivity | now apply rectangular_complete].
Qed.

(** X24. Records can be written in batches: for two sets of equal-length
    sequences, both with [vm] or both without, one call on the sequences
    joined end to end returns [None] and leaves exactly the text of the
    first call followed by the text of the second. *)
Theorem ipf_batches (dir : string) (cs cs' : columns) (w : world) :
  rectangular cs → rectangular cs' →
  (is_Some (c_vm cs) ↔ is_Some (c_vm cs')) →
  path_join dir "input.ipf" ∉ unwritable w →
  ∃ w1 w2 w3 t1 t2,
    write_interpolate_ipf log10 (ipf_args dir (Arrays cs)) (ipf_kwargs (Arrays cs)) w
    = (w1, Ok VNone)
    ∧ files w1 !! path_join dir "input.ipf" = Some t1
    ∧ write_interpolate_ipf log10 (ipf_args dir (Arrays cs')) (ipf_kwargs (Arrays cs')) w
      = (w2, Ok VNone)
    ∧ files w2 !! path_join dir "input.ipf" = Some t2
    ∧ write_interpolate_ipf log10 (ipf_args dir (Arrays (append_columns cs cs')))
        (ipf_kwargs (Arrays (append_columns cs cs'))) w
      = (w3, Ok VNone)
    ∧ files w3 !! path_join dir "input.ipf" = Some (t1 +:+ t2).
Proof.
  intros Hr Hr' Hp Hw.
  destruct (ipf_text_append cs cs' Hr Hr' Hp) as [Et Ec].
  eexists _, _, _, _, _.
  split; [rewrite (ipf_spec log10 dir (Arrays cs) w Hw); cbn [ipf_columns];
          now rewrite rectangular_complete |].
  split; [cbn [files]; apply lookup_insert_eq |].
  split; [rewrite (ipf_spec log10 dir (Arrays cs') w Hw); cbn [ipf_columns];
          now rewrite rectangular_complete |].
  split; [cbn [files]; apply lookup_insert_eq |].
  split; [rewrite (ipf_spec log10 dir (Arrays (append_columns cs cs')) w Hw);
          cbn [ipf_columns]; now rewrite Ec |].
  cbn [files]. rewrite lookup_insert_eq. f_equal. exact Et.
Qed.

End IpfMore.

(** Sample calls. *)

Section IpfSamples.

Lemma ipf_vm_positional_or_keyword_witness :
  is_none (VNum (S754_finite false 2 0)) = false
  ∧ write_interpolate_ipf log10_stub
      (ipf_args "run" (Scalars sun) ++ [VNum (S754_finite false 2 0)]) ∅ empty_world
    = write_interpolate_ipf log10_stub (ipf_args "run" (Scalars sun))
        {[ "vm"%string := VNum (S754_finite false 2 0) ]} empty_world.
Proof.
  split; [reflexivity |].
  apply (ipf_vm_positional_or_keyword log10_stub (VStr "run") (VNum (teff sun))
           (VNum (logg sun)) (VNum (metals sun)) (VNum (am sun)) (VNum (nm sun))
           (VNum (cm sun)) (VNum (S754_finite false 2 0)) empty_world).
  reflexivity.
Defined.

Lemma ipf_positional_none_raises_witness :
  ("run/input.ipf"%string ∉ unwritable empty_world)
  ∧ write_interpolate_ipf log10_stub (ipf_args "run" (Scalars sun) ++ [VNone]) ∅ empty_world
    = (World (<["run/input.ipf"%string := EmptyString]> (files empty_world))
             (unwritable empty_world),
       Raise TypeError).
Proof.
  split; [apply not_elem_of_empty |].
  apply (ipf_positional_none_raises log10_stub "run" sun empty_world).
  apply not_elem_of_empty.
Defined.

Lemma ipf_keyword_scalar_raises_witness :
  ("run/input.ipf"%string ∉ unwritable empty_world)
  ∧ (write_interpolate_ipf log10_stub
       [VStr "run"; VNum (teff sun); VNum (logg sun); VNum (metals sun);
        VNum (am sun); VNum (nm sun)]
       {[ "cm"%string := VNum (cm sun) ]} empty_world
     = (World (<["run/input.ipf"%string := EmptyString]> (files empty_world))
              (unwritable empty_world),
        Raise TypeError)
     ∧ write_interpolate_ipf log10_stub
         [VStr "run"; VNum (teff sun); VNum (logg sun); VNum (metals sun);
          VNum (am sun); VNum (nm sun)]
         {[ "cm"%string := VNp (cm sun) ]} empty_world
       = (World (<["run/input.ipf"%string := EmptyString]> (files empty_world))
                (unwritable empty_world),
          Raise IndexError)).
Proof.
  split; [apply not_elem_of_empty |].
  apply (ipf_keyword_scalar_raises log10_stub "run" (teff sun) (logg sun) (metals sun)
           (am sun) (nm sun) (cm sun) empty_world).
  apply not_elem_of_empty.
Defined.

Lemma ipf_mixed_raises_witness :
  length [logg sun; logg sun] ≠ 1%nat
  ∧ ("run/input.ipf"%string ∉ unwritable empty_world)
  ∧ write_interpolate_ipf log10_stub
      [VStr "run"; VNum (teff sun); arr1 [logg sun; logg sun]; VNum (metals sun);
       VNum (am sun); VNum (nm sun); VNum (cm sun)] ∅ empty_world
    = (World (<["run/input.ipf"%string := EmptyString]> (files empty_world))
             (unwritable empty_world),
       Raise TypeError).
Proof.
  split; [discriminate |]. split; [apply not_elem_of_empty |].
  apply (ipf_mixed_raises log10_stub "run" (teff sun) (metals sun) (am sun) (nm sun)
           (cm sun) [logg sun; logg sun] empty_world);
    [discriminate | apply not_elem_of_empty].
Defined.

Lemma ipf_bad_directory_raises_witness :
  is_str VNone = false
  ∧ write_interpolate_ipf log10_stub
      (VNone :: arr1 (c_teff two_stars) :: [arr1 (c_logg two_stars)]) ∅ empty_world
    = (empty_world, Raise TypeError).
Proof.
  split; [reflexivity |].
  apply (ipf_bad_directory_raises log10_stub VNone (arr1 (c_teff two_stars))
           [arr1 (c_logg two_stars)] ∅ empty_world).
  reflexivity.
Defined.

Lemma ipf_seven_fields_witness :
  has_vm (Scalars sun_vm) = true
  ∧ ("run/input.ipf"%string ∉ unwritable empty_world)
  ∧ (∃ w' res text,
       write_interpolate_ipf log10_stub (ipf_args "run" (Scalars sun_vm))
                             (ipf_kwargs (Scalars sun_vm)) empty_world = (w', res)
       ∧ files w' !! "run/input.ipf"%string = Some text
       ∧ length (Text.lines text) = shortest (ipf_columns (Scalars sun_vm))
       ∧ ∀ i, (i < shortest (ipf_columns (Scalars sun_vm)))%nat →
           ∃ r v line f0 f1 f2 f3 f4 f5 f6,
             row_at (ipf_columns (Scalars sun_vm)) i = Some r
             ∧ vm r = Some v
             ∧ Text.lines text !! i = Some line
             ∧ Text.split_on " " line = ["dummy"%string; f0; f1; f2; f3; f4; f5; f6]
             ∧ Text.written 3 (log10_stub v) f0
             ∧ Text.written 3 (cm r) f1 ∧ Text.written 3 (nm r) f2
             ∧ Text.written 3 (am r) f3 ∧ Text.written 3 (metals r) f4
             ∧ Text.written 3 (logg r) f5 ∧ Text.written 1 (teff r) f6).
Proof.
  split; [reflexivity |]. split; [apply not_elem_of_empty |].
  apply (ipf_seven_fields log10_stub "run" (Scalars sun_vm) empty_world);
    [reflexivity | apply not_elem_of_empty].
Defined.

Lemma ipf_no_records_witness :
  c_teff (Columns [] (c_logg two_stars) [] [] [] [] None) = []
  ∧ ("run/input.ipf"%string ∉ unwritable empty_world)
  ∧ write_interpolate_ipf log10_stub
      (ipf_args "run" (Arrays (Columns [] (c_logg two_stars) [] [] [] [] None)))
      (ipf_kwargs (Arrays (Columns [] (c_logg two_stars) [] [] [] [] None))) empty_world
    = (World (<["run/input.ipf"%string := EmptyString]> (files empty_world))
             (unwritable empty_world),
       Ok VNone).
Proof.
  split; [reflexivity |]. split; [apply not_elem_of_empty |].
  apply (ipf_no_records log10_stub "run"
           (Columns [] (c_logg two_stars) [] [] [] [] None) empty_world);
    [reflexivity | apply not_elem_of_empty].
Defined.

Lemma ipf_touches_one_file_witness :
  "run/input.nml"%string ≠ Text.path_join "run" "input.ipf"
  ∧ files (write_interpolate_ipf log10_stub (ipf_args "run" (Arrays short_carbon))
             (ipf_kwargs (Arrays short_carbon))
             (World {[ "run/input.nml"%string := "&LISTA"%string ]} ∅)).1
      !! "run/input.nml"%string
    = files (World {[ "run/input.nml"%string := "&LISTA"%string ]} ∅)
      !! "run/input.nml"%string.
Proof.
  split; [discriminate |].
  apply (ipf_touches_one_file log10_stub "run" (Arrays short_carbon)
           (World {[ "run/input.nml"%string := "&LISTA"%string ]} ∅) "run/input.nml").
  discriminate.
Defined.


Lemma ipf_batches_witness :
  rectangular two_stars ∧ rectangular (ipf_columns (Scalars sun))
  ∧ (is_Some (c_vm two_stars) ↔ is_Some (c_vm (ipf_columns (Scalars sun))))
  ∧ ("run/input.ipf"%string ∉ unwritable empty_world)
  ∧ (∃ w1 w2 w3 t1 t2,
       write_interpolate_ipf log10_stub (ipf_args "run" (Arrays two_stars))
         (ipf_kwargs (Arrays two_stars)) empty_world
       = (w1, Ok VNone)
       ∧ files w1 !! "run/input.ipf"%string = Some t1
       ∧ write_interpolate_ipf log10_stub
           (ipf_args "run" (Arrays (ipf_columns (Scalars sun))))
           (ipf_kwargs (Arrays (ipf_columns (Scalars sun)))) empty_world
         = (w2, Ok VNone)
       ∧ files w2 !! "run/input.ipf"%string = Some t2
       ∧ write_interpolate_ipf log10_stub
           (ipf_args "run" (Arrays (append_columns two_stars (ipf_columns (Scalars sun)))))
           (ipf_kwargs (Arrays (append_columns two_stars (ipf_columns (Scalars sun)))))
           empty_world
         = (w3, Ok VNone)
       ∧ files w3 !! "run/input.ipf"%string = Some (t1 +:+ t2)).
Proof.
  assert (R1 : rectangular two_stars) by (repeat constructor).
  assert (R2 : rectangular (ipf_columns (Scalars sun))) by (repeat constructor).
  assert (P : is_Some (c_vm two_stars) ↔ is_Some (c_vm (ipf_columns (Scalars sun))))
    by (split; intros [? H]; discriminate H).
  split; [exact R1 |]. split; [exact R2 |]. split; [exact P |].
  split; [apply not_elem_of_empty |].
  apply (ipf_batches log10_stub "run" two_stars (ipf_columns (Scalars sun)) empty_world
           R1 R2 P).
  apply not_elem_of_empty.
Defined.

Lemma ipf_returns_none_witness :
  write_interpolate_ipf log10_stub (ipf_args "run" (Scalars sun)) ∅ empty_world
  = ((write_interpolate_ipf log10_stub (ipf_args "run" (Scalars sun)) ∅ empty_world).1,
     Ok VNone)
  ∧ VNone = VNone.
Proof.
  split; [vm_compute; reflexivity |].
  apply (ipf_returns_none log10_stub (ipf_args "run" (Scalars sun)) ∅ empty_world
           (write_interpolate_ipf log10_stub (ipf_args "run" (Scalars sun)) ∅ empty_world).1
           VNone).
  vm_compute; reflexivity.
Defined.

End IpfSamples.

(** ** The two writers and the runner together *)

Section Pipeline.

Import Text.

Lemma path_join_name_inj (d a b : string) :
  starts_with "/" a = false → starts_with "/" b = false →
  path_join d a = path_join d b → a = b.
Proof.
  unfold path_join. intros -> ->.
  destruct (String.eqb d EmptyString || ends_with "/" d)%bool.
  - apply String.app_inj.
  - intros H. apply String.app_inj in H. now injection H.
Qed.

Lemma nml_ipf_paths_differ (dir : string) :
  path_join dir "input.nml" ≠ path_join dir "input.ipf".
Proof.
  intros H. apply path_join_name_inj in H; [discriminate | reflexivity | reflexivity].
Qed.

(** X25. The two control files of a run do not get in each other's way. For
    a directory both can be opened in and equal-length sequences, writing
    the configuration and then the records succeeds and leaves both
    texts in place; writing them in the other order leaves the same
    store; and [run_ferre] after the two writers starts the program on
    exactly that store. *)
Theorem control_files_then_run
    (lib : bool → res string) (spawn : list string → string → world → world * launch)
    (log10 : spec_float → spec_float)
    (dir pfile offile : string) (ndim nov : Z) (synthfile : option string)
    (inter f_format f_access : Z) (s : string) (cs : columns) (verbose : bool)
    (w : world) :
  resolve_synthfile lib synthfile = Ok s →
  path_join dir "input.nml" ∉ unwritable w →
  path_join dir "input.ipf" ∉ unwritable w →
  rectangular cs →
  ∃ w1 w2 w1' t_nml t_ipf,
    write_input_nml lib dir pfile offile ndim nov synthfile inter f_format f_access w
    = (w1, Ok VNone)
    ∧ files w1 !! path_join dir "input.nml" = Some t_nml
    ∧ write_interpolate_ipf log10 (ipf_args dir (Arrays cs)) (ipf_kwargs (Arrays cs)) w1
      = (w2, Ok VNone)
    ∧ files w2 !! path_join dir "input.nml" = Some t_nml
    ∧ files w2 !! path_join dir "input.ipf" = Some t_ipf
    ∧ write_interpolate_ipf log10 (ipf_args dir (Arrays cs)) (ipf_kwargs (Arrays cs)) w
      = (w1', Ok VNone)
    ∧ write_input_nml lib dir pfile offile ndim nov synthfile inter f_format f_access w1'
      = (w2, Ok VNone)
    ∧ (write_input_nml lib dir pfile offile ndim nov synthfile inter f_format f_access ;;
       write_interpolate_ipf log10 (ipf_args dir (Arrays cs)) (ipf_kwargs (Arrays cs)) ;;
       run_ferre spawn dir verbose) w
      = run_ferre spawn dir verbose w2.
Proof.
  intros Hs Hn Hi Hr.
  pose proof (nml_ipf_paths_differ dir) as Hne.
  pose proof (write_input_nml_spec lib dir pfile offile ndim nov synthfile
                inter f_format f_access s w Hs Hn) as E1.
  set (w1 := World (<[path_join dir "input.nml" :=
                      unlines (nml_lines pfile offile ndim nov s inter f_format f_access)]>
                     (files w)) (unwritable w)) in *.
  pose proof (ipf_spec log10 dir (Arrays cs) w1 Hi) as E2.
  cbn [ipf_columns] in E2. rewrite (rectangular_complete _ Hr) in E2.
  pose proof (ipf_spec log10 dir (Arrays cs) w Hi) as E3.
  cbn [ipf_columns] in E3. rewrite (rectangular_complete _ Hr) in E3.
  eexists w1, _, _, _, _.
  split; [exact E1 |]. split; [apply lookup_insert_eq |].
  split; [exact E2 |].
  split; [cbn [files]; rewrite lookup_insert_ne by congruence; apply lookup_insert_eq |].
  split; [cbn [files]; apply lookup_insert_eq |].
  split; [exact E3 |]. split.
  - rewrite (write_input_nml_spec lib dir pfile offile ndim nov synthfile
               inter f_format f_access s) by (exact Hs || exact Hn).
    cbn [files unwritable]. subst w1. cbn [files unwritable].
    now rewrite insert_insert_ne by congruence.
  - rewrite (bind_ok _ _ _ _ _ E1). now rewrite (bind_ok _ _ _ _ _ E2).
Qed.

Lemma control_files_then_run_witness :
  resolve_synthfile library_found None = Ok "lib/f_apsasGK.hdr"%string
  ∧ ("run/input.nml"%string ∉ unwritable empty_world)
  ∧ ("run/input.ipf"%string ∉ unwritable empty_world)
  ∧ rectangular two_stars
  ∧ (∃ w1 w2 w1' t_nml t_ipf,
       write_input_nml library_found "run" "input.ipf" "out.dat" 6 0 None 3 1 1 empty_world
       = (w1, Ok VNone)
       ∧ files w1 !! "run/input.nml"%string = Some t_nml
       ∧ write_interpolate_ipf log10_stub (ipf_args "run" (Arrays two_stars))
           (ipf_kwargs (Arrays two_stars)) w1
         = (w2, Ok VNone)
       ∧ files w2 !! "run/input.nml"%string = Some t_nml
       ∧ files w2 !! "run/input.ipf"%string = Some t_ipf
       ∧ write_interpolate_ipf log10_stub (ipf_args "run" (Arrays two_stars))
           (ipf_kwargs (Arrays two_stars)) empty_world
         = (w1', Ok VNone)
       ∧ write_input_nml library_found "run" "input.ipf" "out.dat" 6 0 None 3 1 1 w1'
         = (w2, Ok VNone)
       ∧ (write_input_nml library_found "run" "input.ipf" "out.dat" 6 0 None 3 1 1 ;;
          write_interpolate_ipf log10_stub (ipf_args "run" (Arrays two_stars))
            (ipf_kwargs (Arrays two_stars)) ;;
          run_ferre (spawn_exits 0 "" "") "run" false) empty_world
         = run_ferre (spawn_exits 0 "" "") "run" false w2).
Proof.
  assert (R : rectangular two_stars) by (repeat constructor).
  split; [reflexivity |]. split; [apply not_elem_of_empty |].
  split; [apply not_elem_of_empty |]. split; [exact R |].
  apply (control_files_then_run library_found (spawn_exits 0 "" "") log10_stub
           "run" "input.ipf" "out.dat" 6 0 None 3 1 1 "lib/f_apsasGK.hdr" two_stars
           false empty_world);
    [reflexivity | apply not_elem_of_empty | apply not_elem_of_empty | exact R].
Defined.

End Pipeline.
